(** * Data-quality scoring and MITRE matrix parsing of the
    Mitre-Data-Quality Kibana plugin, shallowly embedded.

    Sources: [server/services/data_quality_scoring_service.ts],
    [server/services/data_quality_task_runner.ts] and
    [server/lib/mitre_matrix_parser.ts].

    Numbers are modelled as rationals ([Q]) together with JavaScript's [NaN]
    and the non-numeric values that a property lookup on an object literal can
    return (functions and objects inherited from [Object.prototype]).  Every
    constant the code multiplies (1.0, 0.5, 0.8, 0.4, 5) and every comparison
    the claims depend on is exact in [Q]. *)

From Stdlib Require Import String Ascii List Bool ZArith QArith Qround Lia Lqa.
From Stdlib Require Import Sorting.Sorted Sorting.Permutation.
Import ListNotations.
Open Scope string_scope.

(* ------------------------------------------------------------------ *)
(** ** JavaScript values *)

Module Js.

(** A value produced by the arithmetic of the scoring code: a number, [NaN],
    or a non-primitive (a function or an object). *)
Inductive value : Type :=
| VNum (q : Q)
| VNaN
| VObj.

(** [ToNumber]: a function or a plain object converts to [NaN]
    (its [valueOf] returns itself, its [toString] is not numeric). *)
Definition to_num (v : value) : value :=
  match v with
  | VNum q => VNum q
  | _ => VNaN
  end.

Definition binop (f : Q -> Q -> Q) (a b : value) : value :=
  match to_num a, to_num b with
  | VNum x, VNum y => VNum (f x y)
  | _, _ => VNaN
  end.

Definition mul := binop Qmult.
(** [a + b] with a non-primitive operand concatenates strings; the only use
    of the sum in the code is a division by 5, which turns that string into
    [NaN].  [add] followed by [div] is therefore exact. *)
Definition add := binop Qplus.
Definition div := binop Qdiv.

(** [x < y] on numbers. *)
Definition Qltb (x y : Q) : bool := negb (Qle_bool y x).

(** [Math.round]: round half up. *)
Definition round_q (q : Q) : Q := inject_Z (Qfloor (q + (1 # 2))).

Definition math_round (v : value) : value :=
  match to_num v with
  | VNum q => VNum (round_q q)
  | _ => VNaN
  end.

(** Own property names of [Object.prototype] (as in V8/Node): a bracket
    lookup [obj[k]] on an object literal finds them through the prototype
    chain when [obj] has no own property [k]. *)
Definition proto_keys : list string :=
  [ "constructor"; "__defineGetter__"; "__defineSetter__"; "hasOwnProperty";
    "__lookupGetter__"; "__lookupSetter__"; "isPrototypeOf";
    "propertyIsEnumerable"; "toString"; "valueOf"; "__proto__";
    "toLocaleString" ].

Definition is_proto_key (k : string) : bool :=
  existsb (String.eqb k) proto_keys.

Fixpoint assoc (own : list (string * Q)) (k : string) : option Q :=
  match own with
  | [] => None
  | (k', q) :: rest => if String.eqb k k' then Some q else assoc rest k
  end.

(** [obj[k]] on an object literal whose own properties are numbers;
    [None] is [undefined]. *)
Definition record_get (own : list (string * Q)) (k : string) : option value :=
  match assoc own k with
  | Some q => Some (VNum q)
  | None => if is_proto_key k then Some VObj else None
  end.

(** [x ?? d] *)
Definition nullish (x : option value) (d : value) : value :=
  match x with
  | Some v => v
  | None => d
  end.

(** Truthiness of an optional string ([undefined] or a string). *)
Definition truthy_str (s : option string) : bool :=
  match s with
  | Some s => negb (String.eqb s "")
  | None => false
  end.

End Js.

Import Js.

(* ------------------------------------------------------------------ *)
(** ** The probe gateway: [queryFieldExists] *)

Module Probe.

(** A clause of the [bool.must] list. *)
Inductive clause : Type :=
| Term (field value : string)
| Terms (field : string) (values : list string).

(** A date field of a log document as [new Date(str)] sees it. *)
Inductive date_field : Type :=
| FMissing                (** property absent *)
| FEmpty                  (** the empty string (falsy) *)
| FDate (ms : Z)          (** a parsable date, in epoch milliseconds *)
| FInvalid.               (** a non-empty string [Date] cannot parse *)

(** The fields of the most recent log document that the scoring reads:
    [@timestamp] and [event.ingested]. *)
Record doc : Type := mkDoc { d_timestamp : date_field; d_ingested : date_field }.

(** The log store ([logs-*]) as seen by a search of size 1 sorted by
    [@timestamp] descending: [None] when the search throws, [Some None] when
    there is no hit, [Some (Some d)] with the first hit's [_source]. *)
Definition log_store := list clause -> option (option doc).

Record query_result : Type := mkQR { exists_ : bool; lastDoc : option doc }.

(** [str.split(',')] *)
Fixpoint split_comma_aux (s : string) (cur : string) : list string :=
  match s with
  | EmptyString => [cur]
  | String c rest =>
      if Ascii.eqb c ","%char then cur :: split_comma_aux rest ""
      else split_comma_aux rest (cur ++ String c "")
  end.

Definition split_comma (s : string) : list string := split_comma_aux s "".

Definition is_ws (c : ascii) : bool :=
  let n := nat_of_ascii c in
  existsb (Nat.eqb n) [9; 10; 11; 12; 13; 32]%nat.

Fixpoint drop_ws (l : list ascii) : list ascii :=
  match l with
  | c :: rest => if is_ws c then drop_ws rest else l
  | [] => []
  end.

(** [str.trim()] on ASCII strings. *)
Definition trim (s : string) : string :=
  string_of_list_ascii
    (rev (drop_ws (rev (drop_ws (list_ascii_of_string s))))).

(** The clause list built by [queryFieldExists]. *)
Definition must_clauses (nameField nameValue : string)
           (channelField channelValue : option string) : list clause :=
  Term nameField nameValue ::
  (if truthy_str channelField && truthy_str channelValue then
     let cf := match channelField with Some f => f | None => "" end in
     let channelValues :=
       map trim (split_comma (match channelValue with Some v => v | None => "" end)) in
     if Nat.eqb (length channelValues) 1%nat
     then [Term cf (hd "" channelValues)]
     else [Terms cf channelValues]
   else []).

(** [queryFieldExists]; the second component is the query sent to the
    log store ([None] when no query is sent). *)
Definition queryFieldExists (store : log_store) (nameField nameValue : string)
           (channelField channelValue : option string)
  : query_result * option (list clause) :=
  if String.eqb nameField "" || String.eqb nameValue "" then
    (mkQR false None, None)
  else
    let q := must_clauses nameField nameValue channelField channelValue in
    match store q with
    | Some (Some d) => (mkQR true (Some d), Some q)
    | Some None => (mkQR false None, Some q)
    | None => (mkQR false None, Some q)
    end.

(** The field a clause of the [must] array tests. *)
Definition clause_field (c : clause) : string :=
  match c with
  | Term f _ => f
  | Terms f _ => f
  end.

End Probe.

Import Probe.

(* ------------------------------------------------------------------ *)
(** ** Quality dimension calculators *)

Module Scoring.

Record completeness_details : Type := mkCD {
  base_score : Q;
  status_multiplier : value;
  confidence_multiplier : value }.

Definition statusMultipliers : list (string * Q) :=
  [("complete", 1); ("partial", 1 # 2); ("unmapped", 0)].

Definition confidenceMultipliers : list (string * Q) :=
  [("high", 1); ("medium", 4 # 5); ("low", 2 # 5); ("", 0)].

Record completeness_result : Type := mkCR {
  cr_score : value;
  cr_details : completeness_details;
  cr_lastDoc : option doc;
  cr_query : option (list clause) }.

(** [calculateDataFieldCompletenessScore] *)
Definition calculateDataFieldCompletenessScore (store : log_store)
           (status confidence nameField nameValue : string)
           (channelField channelValue : option string) : completeness_result :=
  if String.eqb status "unmapped" then
    mkCR (VNum 0) (mkCD 0 (VNum 0) (VNum 0)) None None
  else
    let sm := nullish (record_get statusMultipliers status) (VNum 0) in
    let cm := nullish (record_get confidenceMultipliers confidence) (VNum 0) in
    let '(qr, q) := queryFieldExists store nameField nameValue channelField channelValue in
    let base : Q := if exists_ qr then 5 else 0 in
    let finalScore := mul (mul (VNum base) sm) cm in
    mkCR (div (math_round (mul finalScore (VNum 100))) (VNum 100))
         (mkCD base sm cm) (lastDoc qr) q.

(** [calculateTimelinessScore]: [deltaMinutes] is [NaN] when a date does not
    parse, and every comparison with [NaN] is false. *)
Definition calculateTimelinessScore (ld : option doc) : value :=
  match ld with
  | None => VNum 0
  | Some d =>
      match d_ingested d, d_timestamp d with
      | (FMissing | FEmpty), _ => VNum 0
      | _, (FMissing | FEmpty) => VNum 0
      | FDate ing, FDate ts =>
          let deltaMinutes : Q := inject_Z (ing - ts) / 60000 in
          if Qltb deltaMinutes 5 then VNum 5
          else if Qltb deltaMinutes 15 then VNum 3
          else if Qltb deltaMinutes 60 then VNum 1
          else VNum 0
      | _, _ => VNum 0
      end
  end.

(** [calculateConsistencyScore] *)
Definition calculateConsistencyScore (fieldExists : bool) : value :=
  if fieldExists then VNum 5 else VNum 0.

Definition DEFAULT_RETENTION_SCORE : Q := 5.
Definition DEFAULT_DEVICE_COMPLETENESS_SCORE : Q := 2.

(** [calculateDeviceCompletenessScore] *)
Definition calculateDeviceCompletenessScore (fieldExists : bool)
           (configuredScore : value) : value :=
  if fieldExists then configuredScore else VNum 0.

(** [calculateRetentionScore] *)
Definition calculateRetentionScore (fieldExists : bool)
           (configuredScore : value) : value :=
  if fieldExists then configuredScore else VNum 0.

Definition sumQ (l : list Q) : Q := fold_left Qplus l 0.

(** [getRetentionScoreForPlatform] and [getDeviceCompletenessScoreForPlatform]
    over the settings map returned by the cache ([Record<string, number>]):
    the platform's own value, or the rounded mean of all configured values. *)
Definition scoreForPlatform (settings : list (string * Q)) (default : Q)
           (platform : option string) : value :=
  if truthy_str platform then
    nullish (record_get settings (match platform with Some p => p | None => "" end))
            (VNum default)
  else
    let configuredScores := map snd settings in
    match configuredScores with
    | [] => VNum default
    | _ =>
        let averageScore := sumQ configuredScores / inject_Z (Z.of_nat (length configuredScores)) in
        VNum (round_q (averageScore * 10) / 10)
    end.

Definition DEFAULT_REFRESH_DELAY_MS : Z := (7 * 24 * 60 * 60 * 1000)%Z.

(** The part of a [DataQualityScoringService] instance the scoring reads. *)
Record service : Type := mkService {
  refreshDelayMs : Z;
  deviceCompletenessSettings : list (string * Q);
  retentionSettings : list (string * Q) }.

(** The constructor: [refreshDelayMs ?? DEFAULT_REFRESH_DELAY_MS]. *)
Definition new_service (delay : option Z)
           (dev ret : list (string * Q)) : service :=
  mkService (match delay with Some d => d | None => DEFAULT_REFRESH_DELAY_MS end) dev ret.

(** [calculateNextExecution] at time [now] (ms) with draw [r] of
    [Math.random()] in [0,1); the ISO string keeps milliseconds, so the
    timestamp is represented by its epoch milliseconds. *)
Definition calculateNextExecution (svc : service) (now : Z) (r : Q) : Z :=
  let randomSeconds := (Qfloor (r * inject_Z (360 - 60 + 1)) + 60)%Z in
  (now + refreshDelayMs svc + randomSeconds * 1000)%Z.

Record ecs_mapping : Type := mkEcs {
  name_field : string; name_value : string;
  channel_field : string; channel_value : string }.

Record log_source_reference : Type := mkRef {
  ecs : ecs_mapping; status : string; confidence : string }.

Record scores : Type := mkScores {
  next_execution : Z;
  quality_score : value;
  data_field_completeness : value;
  timeliness : value;
  consistency : value;
  device_completeness : value;
  retention : value }.

(** [calculateScoresForLogSource]; also returns the query sent to the log
    store. *)
Definition calculateScoresForLogSource (svc : service) (store : log_store)
           (now : Z) (r : Q) (ref : log_source_reference)
           (platform : option string) : scores * option (list clause) :=
  let m := ecs ref in
  let useChannel := String.eqb (status ref) "complete" in
  let cr := calculateDataFieldCompletenessScore store (status ref) (confidence ref)
              (name_field m) (name_value m)
              (if useChannel then Some (channel_field m) else None)
              (if useChannel then Some (channel_value m) else None) in
  let fieldExists := Qltb 0 (base_score (cr_details cr)) in
  let t := calculateTimelinessScore (cr_lastDoc cr) in
  let c := calculateConsistencyScore fieldExists in
  let dv := calculateDeviceCompletenessScore fieldExists
              (scoreForPlatform (deviceCompletenessSettings svc)
                 DEFAULT_DEVICE_COMPLETENESS_SCORE platform) in
  let rt := calculateRetentionScore fieldExists
              (scoreForPlatform (retentionSettings svc) DEFAULT_RETENTION_SCORE platform) in
  let qs := div (math_round (mul (div (add (add (add (add (cr_score cr) t) c) dv) rt)
                                      (VNum 5)) (VNum 10))) (VNum 10) in
  (mkScores (calculateNextExecution svc now r) qs (cr_score cr) t c dv rt, cr_query cr).

End Scoring.

(* ------------------------------------------------------------------ *)
(** ** Result store passes: [processAllAnalytics],
       [getAnalyticsNeedingRecalculation] and the task runner *)

Module Runner.
Import Scoring.
Local Open Scope list_scope.

(** Store operations, in the order they are issued.  [OpProcess id] is the
    recomputation of an analytic ([processAnalytic], which only reads the
    log store); [OpIndex], [OpClearScroll] and [OpRefresh] act on the
    store. *)
Inductive op : Type :=
| OpOpenScroll (sid : option string)
| OpScroll (sid : string)
| OpClearScroll (sid : string)
| OpProcess (id : string)
| OpIndex (id : string)
| OpRefresh.

(** Completion of an awaited call: a value, or a thrown error. *)
Inductive res (A : Type) : Type :=
| Ok (a : A)
| Thrown.
Arguments Ok {A} a.
Arguments Thrown {A}.

(** [AnalyticDocument] of the ECS index; [a_refs] is
    [x_mitre_log_source_references], possibly absent. *)
Record analytic_doc : Type := mkAnalytic {
  a_id : string; a_name : string; a_refs : option (list log_source_reference) }.

(** A page of a scrolled search: the hits ([None] for a hit without
    [_source]) and [_scroll_id]. *)
Record page : Type := mkPage {
  hits : list (option analytic_doc); scroll_id : option string }.

(** What the store answers during a full pass. *)
Record scan_env : Type := mkScanEnv {
  ecs_exists : option bool;             (** [indices.exists]; [None]: throws *)
  first_page : option page;             (** the initial [search]; [None]: throws *)
  next_pages : list (option page);      (** successive [scroll] answers; [None]: throws *)
  recompute_ok : string -> bool;        (** [processAnalytic] and [index] succeed *)
  clear_ok : bool;                      (** [clearScroll] succeeds *)
  refresh_ok : bool }.                  (** [indices.refresh] succeeds *)

(** The [for (const hit of hits)] body; per-analytic errors are caught. *)
Definition process_hit (ok : string -> bool) (h : option analytic_doc) : list op :=
  match h with
  | None => []
  | Some a =>
      match a_refs a with
      | None | Some [] => []
      | Some _ => OpProcess (a_id a) :: (if ok (a_id a) then [OpIndex (a_id a)] else [])
      end
  end.

Definition process_hits (ok : string -> bool) (hs : list (option analytic_doc)) : list op :=
  flat_map (process_hit ok) hs.

(** The [while (hits.length > 0)] loop.  Once the scripted answers are used
    up, the store answers a [scroll] with no hits and the same scroll id.
    [if (scrollId)] holds for a present, non-empty id; otherwise the loop
    breaks. *)
Fixpoint scan_loop (ok : string -> bool) (hs : list (option analytic_doc))
         (sid : option string) (rest : list (option page))
  : list op * res (option string) :=
  match hs with
  | [] => ([], Ok sid)
  | _ :: _ =>
      let ops := process_hits ok hs in
      match sid with
      | None => (ops, Ok None)                                  (* break *)
      | Some s =>
          if String.eqb s "" then (ops, Ok sid) else            (* break *)
          match rest with
          | [] => (ops ++ [OpScroll s], Ok (Some s))
          | None :: _ => (ops ++ [OpScroll s], Thrown)
          | Some p :: rest' =>
              let '(ops', r) := scan_loop ok (hits p) (scroll_id p) rest' in
              (ops ++ OpScroll s :: ops', r)
          end
      end
  end.

(** [DataQualityScoringService.processAllAnalytics] *)
Definition processAllAnalytics (e : scan_env) : list op * res unit :=
  match ecs_exists e with
  | None => ([], Thrown)
  | Some false => ([], Ok tt)
  | Some true =>
      match first_page e with
      | None => ([], Thrown)
      | Some p =>
          let '(ops, r) := scan_loop (recompute_ok e) (hits p) (scroll_id p) (next_pages e) in
          let ops0 := OpOpenScroll (scroll_id p) :: ops in
          match r with
          | Thrown => (ops0, Thrown)
          | Ok sid =>
              let '(ops1, cleared) :=
                match sid with
                | Some s =>
                    if String.eqb s "" then (ops0, true)        (* [if (scrollId)] fails *)
                    else (ops0 ++ [OpClearScroll s], clear_ok e)
                | None => (ops0, true)
                end in
              if cleared then
                (ops1 ++ [OpRefresh], if refresh_ok e then Ok tt else Thrown)
              else (ops1, Thrown)
          end
      end
  end.

(** A document of the results index: per log-source reference its
    [scores.next_execution] (epoch ms), absent before any scoring. *)
Record result_doc : Type := mkResult {
  r_id : string; r_next_executions : list (option Z) }.

(** The nested range query [next_execution <= now]: some reference has an
    elapsed [next_execution]. *)
Definition is_due (now : Z) (d : result_doc) : bool :=
  existsb (fun t => match t with Some t => Z.leb t now | None => false end)
          (r_next_executions d).

Inductive action : Type := AInit | AUpdate | ANone.

(** What the store answers during a smart pass. *)
Record smart_env : Type := mkSmartEnv {
  results_exists : option bool;         (** [indices.exists]; [None]: throws *)
  count_ok : bool;                      (** [count] succeeds *)
  results : list result_doc;            (** the results index, in hit order *)
  now : Z;
  due_search_ok : bool;                 (** the due search succeeds *)
  full : scan_env;                      (** the store during an init full pass *)
  recompute_ok' : string -> bool;       (** [processAnalytic] and [index] succeed *)
  refresh_ok' : bool }.

(** [getAnalyticsNeedingRecalculation]: one search of size 100; on error,
    no analytics. *)
Definition getAnalyticsNeedingRecalculation (e : smart_env) : list result_doc :=
  if due_search_ok e then firstn 100 (filter (is_due (now e)) (results e)) else [].

Definition init_result (r : res unit) : res (action * Z) :=
  match r with
  | Ok _ => Ok (AInit, (-1)%Z)
  | Thrown => Thrown
  end.

(** The body of [runSmartScoringWithClient] (inside [try]). *)
Definition smart_body (e : smart_env) : list op * res (action * Z) :=
  match results_exists e with
  | None => ([], Thrown)
  | Some false =>
      let '(ops, r) := processAllAnalytics (full e) in (ops, init_result r)
  | Some true =>
      if negb (count_ok e) then ([], Thrown)
      else if Nat.eqb (length (results e)) 0 then
        let '(ops, r) := processAllAnalytics (full e) in (ops, init_result r)
      else
        let due := getAnalyticsNeedingRecalculation e in
        match due with
        | [] => ([], Ok (ANone, 0%Z))
        | _ :: _ =>
            let ops := flat_map (fun d => OpProcess (r_id d) ::
                                   (if recompute_ok' e (r_id d) then [OpIndex (r_id d)] else []))
                                due in
            (ops ++ [OpRefresh],
             if refresh_ok' e then Ok (AUpdate, Z.of_nat (length due)) else Thrown)
        end
  end.

(** [runSmartScoringWithClient] from the [isRunning] flag: the final flag,
    the operations and the result. *)
Definition runSmartScoringWithClient (isRunning : bool) (e : smart_env)
  : bool * list op * res (action * Z) :=
  if isRunning then (true, [], Ok (ANone, 0%Z))
  else let '(ops, r) := smart_body e in (false, ops, r).

(** [runFullCalculation] (and [runFullCalculationWithClient]): errors of
    the full pass are caught and logged. *)
Definition runFullCalculation (isRunning : bool) (e : scan_env) : bool * list op :=
  if isRunning then (true, [])
  else (false, fst (processAllAnalytics e)).

(** Identifiers written by [index]. *)
Definition writes (ops : list op) : list string :=
  flat_map (fun o => match o with OpIndex id => [id] | _ => [] end) ops.

(** Identifiers recomputed by [processAnalytic]. *)
Definition recomputed (ops : list op) : list string :=
  flat_map (fun o => match o with OpProcess id => [id] | _ => [] end) ops.

Definition is_clear (o : op) : bool :=
  match o with OpClearScroll _ => true | _ => false end.

(** The operations of recomputing the analytics [due] and indexing
    the ones that succeed. *)
Definition recompute_ops (e : smart_env) (due : list result_doc) : list op :=
  flat_map (fun d => OpProcess (r_id d) ::
              (if recompute_ok' e (r_id d) then [OpIndex (r_id d)] else [])) due.

End Runner.

(* ------------------------------------------------------------------ *)
(** ** The [isRunning] guard of [DataQualityTaskRunner] under interleaving

    Passes triggered on one task runner run as asynchronous functions on one
    event loop.  A pass runs synchronously up to its first [await]: checking
    [isRunning] and setting it is one atomic step.  Each store operation is
    an [await], so other passes may interleave between two operations.  The
    [finally] block clears the flag after the last operation, whether the
    pass ended normally or with an error. *)

Module Guard.
Import Runner.
Local Open Scope list_scope.

Inductive pass_kind : Type :=
| PFull (e : scan_env)                 (** [runFullCalculation] *)
| PFullWithClient (e : scan_env)       (** [runFullCalculationWithClient] *)
| PSmart (e : smart_env).              (** [runSmartScoringWithClient] *)

Inductive pass_result : Type :=
| RVoid                                (** a full pass resolves to [undefined] *)
| RSmart (a : action) (n : Z)
| RThrown.

(** The operations of an admitted pass and how it completes. *)
Definition body (k : pass_kind) : list op * pass_result :=
  match k with
  | PFull e | PFullWithClient e => (fst (processAllAnalytics e), RVoid)
  | PSmart e =>
      let '(ops, r) := smart_body e in
      (ops, match r with Ok (a, n) => RSmart a n | Thrown => RThrown end)
  end.

(** The result of a pass turned away by the guard. *)
Definition noop_result (k : pass_kind) : pass_result :=
  match k with
  | PSmart _ => RSmart ANone 0
  | _ => RVoid
  end.

Inductive phase : Type :=
| Idle                                          (** triggered, not started *)
| InFlight (pending : list op) (final : pass_result)
| Done (r : pass_result)
| Rejected (r : pass_result).

Record sys : Type := mkSys {
  isRunning : bool;
  phase_of : nat -> phase;
  trace : list (nat * op) }.

Definition upd (f : nat -> phase) (i : nat) (p : phase) : nat -> phase :=
  fun j => if Nat.eqb j i then p else f j.

Definition init : sys := mkSys false (fun _ => Idle) [].

Section Steps.
(** The pass triggered as the [i]-th call. *)
Variable kind : nat -> pass_kind.

(** One atomic step of pass [i]. *)
Definition step_thread (s : sys) (i : nat) : option sys :=
  match phase_of s i with
  | Idle =>
      if isRunning s
      then Some (mkSys true (upd (phase_of s) i (Rejected (noop_result (kind i)))) (trace s))
      else Some (mkSys true (upd (phase_of s) i
                               (InFlight (fst (body (kind i))) (snd (body (kind i)))))
                       (trace s))
  | InFlight (o :: rest) f =>
      Some (mkSys (isRunning s) (upd (phase_of s) i (InFlight rest f)) (trace s ++ [(i, o)]))
  | InFlight [] f =>
      Some (mkSys false (upd (phase_of s) i (Done f)) (trace s))
  | Done _ | Rejected _ => None
  end.

Inductive reachable : sys -> Prop :=
| reach_init : reachable init
| reach_step (s s' : sys) (i : nat) :
    reachable s -> step_thread s i = Some s' -> reachable s'.

(** Running a schedule: the passes that step, in order. *)
Fixpoint run (s : sys) (sched : list nat) : sys :=
  match sched with
  | [] => s
  | i :: rest =>
      match step_thread s i with
      | Some s' => run s' rest
      | None => run s rest
      end
  end.
End Steps.

Definition in_flight (p : phase) : Prop :=
  match p with InFlight _ _ => True | _ => False end.

End Guard.

(* ------------------------------------------------------------------ *)
(** ** Sample stores *)

Module Samples.
Import Scoring Runner.
Local Open Scope list_scope.

Definition sample_ref : log_source_reference :=
  mkRef (mkEcs "event.code" "4688" "winlog.channel" "Security") "complete" "high".

Definition sample_analytic (id : string) : analytic_doc :=
  mkAnalytic id "Process creation" (Some [sample_ref]).

(** A full pass whose first page has one analytic and whose first [scroll]
    continuation throws. *)
Definition scroll_error_env : scan_env :=
  mkScanEnv (Some true)
    (Some (mkPage [Some (sample_analytic "x-mitre-analytic--1")] (Some "scroll-1")))
    [None] (fun _ => true) true true.

(** A full pass whose first [scroll] continuation answers a page without
    [_scroll_id]. *)
Definition break_env : scan_env :=
  mkScanEnv (Some true)
    (Some (mkPage [Some (sample_analytic "x-mitre-analytic--1")] (Some "scroll-1")))
    [Some (mkPage [Some (sample_analytic "x-mitre-analytic--2")] None)]
    (fun _ => true) true true.

(** A full pass over two pages whose refresh fails. *)
Definition refresh_error_env : scan_env :=
  mkScanEnv (Some true)
    (Some (mkPage [Some (sample_analytic "x-mitre-analytic--1")] (Some "scroll-1")))
    [Some (mkPage [Some (sample_analytic "x-mitre-analytic--2")] (Some "scroll-2"))]
    (fun _ => true) true false.

Definition nth_id (n : nat) : string :=
  "x-mitre-analytic--" ++ string_of_list_ascii (repeat "a"%char n).

(** A results index of 101 analytics, each with an elapsed
    [next_execution] (at time 1000, scored to be due at time 0). *)
Definition many_due_env : smart_env :=
  mkSmartEnv (Some true) true
    (map (fun n => mkResult (nth_id n) [Some 0%Z]) (seq 1 101))
    1000%Z true scroll_error_env (fun _ => true) true.

(** Two passes on one runner: a smart pass (0) admitted first, then a full
    pass (1) triggered while it waits on its first store operation. *)
Definition two_passes (i : nat) : Guard.pass_kind :=
  match i with
  | O => Guard.PSmart (mkSmartEnv (Some false) true [] 0%Z true refresh_error_env (fun _ => true) true)
  | _ => Guard.PFull refresh_error_env
  end.

End Samples.

(* ------------------------------------------------------------------ *)
(** ** MITRE matrix parser *)

Module Parser.
Import Runner.
Local Open Scope list_scope.
Local Set Warnings "-register-all".

(** *** STIX objects, as typed by [StixObject] *)

Record stix_external_reference := mkExtRef {
  source_name : string;
  external_id : option string;
  url : option string
}.

Record stix_kill_chain_phase := mkPhase {
  kill_chain_name : string;
  phase_name : string
}.

(** An optional field is [None] when absent ([undefined]). *)
Record stix_object := mkStix {
  type_ : string;
  id : string;
  name : option string;
  description : option string;
  external_references : option (list stix_external_reference);
  kill_chain_phases : option (list stix_kill_chain_phase);
  x_mitre_is_subtechnique : option bool;
  x_mitre_deprecated : option bool;
  revoked : option bool;
  x_mitre_analytic_refs : option (list string);
  x_mitre_platforms : option (list string);
  relationship_type : option string;
  source_ref : option string;
  target_ref : option string
}.

(** Truthiness of an optional boolean and of an optional array (every
    array is truthy). *)
Definition truthy_bool (b : option bool) : bool :=
  match b with Some true => true | _ => false end.

Definition truthy_array {A} (l : option (list A)) : bool :=
  match l with Some _ => true | None => false end.

(** *** The typed collections *)

Record stix_attack_pattern := mkAttackPattern {
  ap_id : string;
  ap_name : string;
  ap_description : string;
  ap_external_references : list stix_external_reference;
  ap_kill_chain_phases : option (list stix_kill_chain_phase);
  ap_x_mitre_is_subtechnique : option bool;
  ap_x_mitre_deprecated : option bool;
  ap_revoked : option bool
}.

Record stix_detection_strategy := mkDetectionStrategy {
  ds_id : string;
  ds_name : string;
  ds_external_references : list stix_external_reference;
  ds_x_mitre_analytic_refs : option (list string);
  ds_x_mitre_deprecated : option bool
}.

Record stix_analytic := mkStixAnalytic {
  an_id : string;
  an_name : string;
  an_external_references : list stix_external_reference;
  an_x_mitre_platforms : option (list string);
  an_x_mitre_deprecated : option bool
}.

(** A JavaScript [Map] in insertion order: [set] on a present key replaces
    the value in place, on a new key appends the entry. *)
Definition js_map (V : Type) := list (string * V).

Fixpoint map_set {V} (m : js_map V) (k : string) (v : V) : js_map V :=
  match m with
  | [] => [(k, v)]
  | (k', v') :: rest =>
      if String.eqb k k' then (k, v) :: rest else (k', v') :: map_set rest k v
  end.

Fixpoint map_get {V} (m : js_map V) (k : string) : option V :=
  match m with
  | [] => None
  | (k', v) :: rest => if String.eqb k k' then Some v else map_get rest k
  end.

(** [obj.name!] and [obj.external_references!] after the filter has checked
    them; the defaults are never reached on a kept object. *)
Definition name_of (o : stix_object) : string :=
  match name o with Some n => n | None => "" end.

Definition refs_of (o : stix_object) : list stix_external_reference :=
  match external_references o with Some r => r | None => [] end.

(** [obj.description || ''] *)
Definition description_or_empty (o : stix_object) : string :=
  match description o with Some d => d | None => "" end.

Definition keep_attack_pattern (obj : stix_object) : bool :=
  String.eqb (type_ obj) "attack-pattern" &&
  negb (truthy_bool (x_mitre_deprecated obj)) &&
  negb (truthy_bool (revoked obj)) &&
  Js.truthy_str (name obj) &&
  truthy_array (external_references obj).

Definition to_attack_pattern (obj : stix_object) : stix_attack_pattern :=
  mkAttackPattern (id obj) (name_of obj) (description_or_empty obj)
    (refs_of obj) (kill_chain_phases obj) (x_mitre_is_subtechnique obj)
    (x_mitre_deprecated obj) (revoked obj).

(** [extractAttackPatterns] *)
Definition extractAttackPatterns (objects : list stix_object)
    : list stix_attack_pattern :=
  map to_attack_pattern (filter keep_attack_pattern objects).

Definition keep_detection_strategy (obj : stix_object) : bool :=
  String.eqb (type_ obj) "x-mitre-detection-strategy" &&
  negb (truthy_bool (x_mitre_deprecated obj)) &&
  Js.truthy_str (name obj) &&
  truthy_array (external_references obj).

Definition to_detection_strategy (obj : stix_object) : stix_detection_strategy :=
  mkDetectionStrategy (id obj) (name_of obj) (refs_of obj)
    (x_mitre_analytic_refs obj) (x_mitre_deprecated obj).

(** [extractDetectionStrategies]: the [for ... of] loop over the objects. *)
Definition extractDetectionStrategies (objects : list stix_object)
    : js_map stix_detection_strategy :=
  fold_left
    (fun strategies obj =>
       if keep_detection_strategy obj
       then map_set strategies (id obj) (to_detection_strategy obj)
       else strategies)
    objects [].

Definition keep_analytic (obj : stix_object) : bool :=
  String.eqb (type_ obj) "x-mitre-analytic" &&
  negb (truthy_bool (x_mitre_deprecated obj)) &&
  Js.truthy_str (name obj) &&
  truthy_array (external_references obj).

Definition to_analytic (obj : stix_object) : stix_analytic :=
  mkStixAnalytic (id obj) (name_of obj) (refs_of obj)
    (x_mitre_platforms obj) (x_mitre_deprecated obj).

(** [extractAnalytics] *)
Definition extractAnalytics (objects : list stix_object)
    : js_map stix_analytic :=
  fold_left
    (fun analyticsMap obj =>
       if keep_analytic obj
       then map_set analyticsMap (id obj) (to_analytic obj)
       else analyticsMap)
    objects [].

(** *** The matrix *)

Record mitre_tactic := mkTactic {
  tac_id : string;
  tac_name : string;
  shortName : string;
  tac_description : string;
  tac_externalId : string;
  tac_url : string
}.

Record mitre_analytic := mkMitreAnalytic {
  ma_id : string;
  ma_name : string;
  ma_externalId : string;
  platforms : list string
}.

Record mitre_detection_strategy := mkMitreStrategy {
  mds_id : string;
  mds_name : string;
  mds_externalId : string;
  mds_url : string;
  analytics : list mitre_analytic
}.

Inductive mitre_technique :=
| mkTechnique (t_id t_name externalId t_url t_description : string)
    (tacticShortNames : list string) (isSubtechnique : bool)
    (parentTechniqueId : option string)
    (subtechniques : option (list mitre_technique))
    (detectionStrategies : option (list mitre_detection_strategy)).

Record tactic_with_techniques := mkTacticWithTechniques {
  tactic : mitre_tactic;
  techniques : list mitre_technique
}.

Record mitre_matrix_data := mkMatrix {
  tactics : list tactic_with_techniques;
  availablePlatforms : list string
}.

(** [MITRE_TACTICS_ORDER] *)
Definition MITRE_TACTICS_ORDER : list mitre_tactic := [
  {| tac_id := "x-mitre-tactic--daa4cbb1-b4f4-4723-a824-7f1efd6e0592";
     tac_name := "Reconnaissance";
     shortName := "reconnaissance";
     tac_description :=
       "The adversary is trying to gather information they can use to plan future operations.";
     tac_externalId := "TA0043";
     tac_url := "https://attack.mitre.org/tactics/TA0043" |};
  {| tac_id := "x-mitre-tactic--d679bca2-e57d-4935-8650-8031c87a4400";
     tac_name := "Resource Development";
     shortName := "resource-development";
     tac_description :=
       "The adversary is trying to establish resources they can use to support operations.";
     tac_externalId := "TA0042";
     tac_url := "https://attack.mitre.org/tactics/TA0042" |};
  {| tac_id := "x-mitre-tactic--ffd5bcee-6e16-4dd2-8eca-7b3beedf33ca";
     tac_name := "Initial Access";
     shortName := "initial-access";
     tac_description :=
       "The adversary is trying to get into your network.";
     tac_externalId := "TA0001";
     tac_url := "https://attack.mitre.org/tactics/TA0001" |};
  {| tac_id := "x-mitre-tactic--4ca45d45-df4d-4613-8980-bac22d278fa5";
     tac_name := "Execution";
     shortName := "execution";
     tac_description :=
       "The adversary is trying to run malicious code.";
     tac_externalId := "TA0002";
     tac_url := "https://attack.mitre.org/tactics/TA0002" |};
  {| tac_id := "x-mitre-tactic--5bc1d813-693e-4823-9961-abf9af4b0e92";
     tac_name := "Persistence";
     shortName := "persistence";
     tac_description :=
       "The adversary is trying to maintain their foothold.";
     tac_externalId := "TA0003";
     tac_url := "https://attack.mitre.org/tactics/TA0003" |};
  {| tac_id := "x-mitre-tactic--5e29b093-294e-49e9-a803-dab3d73b77dd";
     tac_name := "Privilege Escalation";
     shortName := "privilege-escalation";
     tac_description :=
       "The adversary is trying to gain higher-level permissions.";
     tac_externalId := "TA0004";
     tac_url := "https://attack.mitre.org/tactics/TA0004" |};
  {| tac_id := "x-mitre-tactic--78b23412-0651-46d7-a540-170a1ce8bd5a";
     tac_name := "Defense Evasion";
     shortName := "defense-evasion";
     tac_description :=
       "The adversary is trying to avoid being detected.";
     tac_externalId := "TA0005";
     tac_url := "https://attack.mitre.org/tactics/TA0005" |};
  {| tac_id := "x-mitre-tactic--2558fd61-8c75-4730-94c4-11926db2a263";
     tac_name := "Credential Access";
     shortName := "credential-access";
     tac_description :=
       "The adversary is trying to steal account names and passwords.";
     tac_externalId := "TA0006";
     tac_url := "https://attack.mitre.org/tactics/TA0006" |};
  {| tac_id := "x-mitre-tactic--c17c5845-175e-4421-9713-829d0573dbc9";
     tac_name := "Discovery";
     shortName := "discovery";
     tac_description :=
       "The adversary is trying to figure out your environment.";
     tac_externalId := "TA0007";
     tac_url := "https://attack.mitre.org/tactics/TA0007" |};
  {| tac_id := "x-mitre-tactic--7141578b-e50b-4dcc-bfa4-08a8dd689e9e";
     tac_name := "Lateral Movement";
     shortName := "lateral-movement";
     tac_description :=
       "The adversary is trying to move through your environment.";
     tac_externalId := "TA0008";
     tac_url := "https://attack.mitre.org/tactics/TA0008" |};
  {| tac_id := "x-mitre-tactic--d108ce10-2419-4cf9-a774-46161d6c6cfe";
     tac_name := "Collection";
     shortName := "collection";
     tac_description :=
       "The adversary is trying to gather data of interest to their goal.";
     tac_externalId := "TA0009";
     tac_url := "https://attack.mitre.org/tactics/TA0009" |};
  {| tac_id := "x-mitre-tactic--f72804c5-f15a-449e-a5da-2eecd181f813";
     tac_name := "Command and Control";
     shortName := "command-and-control";
     tac_description :=
       "The adversary is trying to communicate with compromised systems to control them.";
     tac_externalId := "TA0011";
     tac_url := "https://attack.mitre.org/tactics/TA0011" |};
  {| tac_id := "x-mitre-tactic--9a4e74ab-5008-408c-84bf-a10dfbc53462";
     tac_name := "Exfiltration";
     shortName := "exfiltration";
     tac_description :=
       "The adversary is trying to steal data.";
     tac_externalId := "TA0010";
     tac_url := "https://attack.mitre.org/tactics/TA0010" |};
  {| tac_id := "x-mitre-tactic--5569339b-94c2-49ee-afb3-2222936582c8";
     tac_name := "Impact";
     shortName := "impact";
     tac_description :=
       "The adversary is trying to manipulate, interrupt, or destroy your systems and data.";
     tac_externalId := "TA0040";
     tac_url := "https://attack.mitre.org/tactics/TA0040" |}
].

(** [getEmptyTactics] *)
Definition getEmptyTactics : list tactic_with_techniques :=
  map (fun t => mkTacticWithTechniques t []) MITRE_TACTICS_ORDER.

(** *** Loading the bundle *)

(** A value produced by [JSON.parse]; an object keeps its members in
    source order. *)
Inductive json :=
| JsonNull
| JsonBool (b : bool)
| JsonNumber (q : Q)
| JsonString (s : string)
| JsonArray (items : list json)
| JsonObject (members : list (string * json)).

Definition json_truthy (v : json) : bool :=
  match v with
  | JsonNull => false
  | JsonBool b => b
  | JsonNumber q => negb (Qeq_bool q 0)
  | JsonString s => negb (String.eqb s "")
  | JsonArray _ | JsonObject _ => true
  end.

(** Property read on a parsed value: [JSON.parse] keeps the last of
    duplicate members; primitives and arrays have no [objects] property. *)
Definition json_member (v : json) (k : string) : option json :=
  match v with
  | JsonObject members =>
      fold_left (fun acc '(k', x) => if String.eqb k k' then Some x else acc)
        members None
  | _ => None
  end.

(** The data file as [loadStixData] finds it: absent ([existsSync] is
    false), unreadable ([readFileSync] throws), or read with a text that
    [JSON.parse] rejects ([None]) or parses to a value. *)
Inductive stix_file :=
| FileMissing
| FileUnreadable
| FileText (parsed : option json).

(** [loadStixData]: every failure is caught and becomes [null]. *)
Definition loadStixData (f : stix_file) : option json :=
  match f with
  | FileMissing => None
  | FileUnreadable => None
  | FileText None => None
  | FileText (Some v) => Some v
  end.

Definition empty_matrix : mitre_matrix_data :=
  mkMatrix getEmptyTactics [].

Section ParseMatrix.
(** The steps after the load ([extractAttackPatterns] through
    [buildMatrix]) on the array [stixData.objects]; none of them is
    wrapped in a [try]. *)
Variable build : list json -> res mitre_matrix_data.

(** [parseMatrix].  [stixData.objects.filter] (the first step) throws a
    [TypeError] unless [stixData.objects] is an array. *)
Definition parseMatrix (f : stix_file) : res mitre_matrix_data :=
  match loadStixData f with
  | None => Ok empty_matrix
  | Some stixData =>
      if negb (json_truthy stixData) then Ok empty_matrix
      else match json_member stixData "objects" with
           | Some (JsonArray objects) => build objects
           | _ => Thrown
           end
  end.
End ParseMatrix.

(** The [shortName]s of [MITRE_TACTICS_ORDER], in order. *)
Definition canonical_short_names : list string :=
  [ "reconnaissance"; "resource-development"; "initial-access"; "execution";
    "persistence"; "privilege-escalation"; "defense-evasion";
    "credential-access"; "discovery"; "lateral-movement"; "collection";
    "command-and-control"; "exfiltration"; "impact" ].

(** A revoked, not deprecated analytic with a name and references. *)
Definition revoked_analytic_object : stix_object :=
  mkStix "x-mitre-analytic" "x-mitre-analytic--r1" (Some "Revoked analytic") None
    (Some [mkExtRef "mitre-attack" (Some "AN9999") None]) None None None
    (Some true) None (Some ["Windows"]) None None None.

End Parser.

(* ------------------------------------------------------------------ *)
(** ** Settings caches of [DataQualityScoringService] *)

Module Settings.
Import Scoring.
Local Open Scope list_scope.

(** One of the two caches ([retentionScoresCache] with its timestamp, or
    [deviceCompletenessCache] with its timestamp). *)
Record settings_cache : Type := mkCache {
  cache : list (string * Q);
  cacheTimestamp : Z }.

(** A fresh service: [{}] with timestamp 0. *)
Definition initial_cache : settings_cache := mkCache [] 0.

Definition CACHE_TTL_MS : Z := 60000.

(** What the settings index answers: [indices.exists] ([None]: throws) and
    the [get] of the settings document ([None]: throws, as for a missing
    document; [Some None]: a [_source] without [scores]). *)
Record settings_store : Type := mkSettingsStore {
  settings_index_exists : option bool;
  settings_doc : option (option (list (string * Q))) }.

(** [fetchRetentionSettings] and [fetchDeviceCompletenessSettings] (the same
    code on their own cache and document id): checked at time [now], the
    cache is refilled at time [done] ([Date.now()] after the store calls).
    Returns the settings, the new cache, and whether the store was read. *)
Definition fetchSettings (c : settings_cache) (now done : Z) (st : settings_store)
  : list (string * Q) * settings_cache * bool :=
  if Z.ltb (now - cacheTimestamp c) CACHE_TTL_MS then (cache c, c, false)
  else
    match settings_index_exists st with
    | Some true =>
        match settings_doc st with
        | Some (Some scores) => (scores, mkCache scores done, true)
        | Some None => ([], mkCache [] done, true)
        | None => ([], mkCache [] done, true)
        end
    | _ => ([], mkCache [] done, true)
    end.

(** [invalidateSettingsCache] on one cache. *)
Definition invalidate (c : settings_cache) : settings_cache := mkCache (cache c) 0.

(** [getRetentionScoreForPlatform] *)
Definition getRetentionScoreForPlatform (c : settings_cache) (now done : Z)
           (st : settings_store) (platform : option string) : Js.value * settings_cache :=
  let '(settings, c', _) := fetchSettings c now done st in
  (scoreForPlatform settings DEFAULT_RETENTION_SCORE platform, c').

(** [getDeviceCompletenessScoreForPlatform] *)
Definition getDeviceCompletenessScoreForPlatform (c : settings_cache) (now done : Z)
           (st : settings_store) (platform : option string) : Js.value * settings_cache :=
  let '(settings, c', _) := fetchSettings c now done st in
  (scoreForPlatform settings DEFAULT_DEVICE_COMPLETENESS_SCORE platform, c').

(** A store whose settings index does not exist. *)
Definition no_settings_index : settings_store := mkSettingsStore (Some false) None.

End Settings.

(* ------------------------------------------------------------------ *)
(** ** Building the matrix: [convertToTechniques],
       [linkDetectionStrategiesToTechniques], [collectAvailablePlatforms],
       [buildMatrix] and the [getMatrix] cache *)

Module Matrix.
Import Runner Parser.
Local Open Scope list_scope.

(** The fields of a [MitreTechnique]. *)
Definition tech_id (t : mitre_technique) : string :=
  let '(mkTechnique i _ _ _ _ _ _ _ _ _) := t in i.
Definition tech_name (t : mitre_technique) : string :=
  let '(mkTechnique _ n _ _ _ _ _ _ _ _) := t in n.
Definition tech_externalId (t : mitre_technique) : string :=
  let '(mkTechnique _ _ e _ _ _ _ _ _ _) := t in e.
Definition tech_url (t : mitre_technique) : string :=
  let '(mkTechnique _ _ _ u _ _ _ _ _ _) := t in u.
Definition tech_tacticShortNames (t : mitre_technique) : list string :=
  let '(mkTechnique _ _ _ _ _ s _ _ _ _) := t in s.
Definition tech_isSubtechnique (t : mitre_technique) : bool :=
  let '(mkTechnique _ _ _ _ _ _ b _ _ _) := t in b.
Definition tech_parentTechniqueId (t : mitre_technique) : option string :=
  let '(mkTechnique _ _ _ _ _ _ _ p _ _) := t in p.
Definition tech_subtechniques (t : mitre_technique) : option (list mitre_technique) :=
  let '(mkTechnique _ _ _ _ _ _ _ _ s _) := t in s.
Definition tech_detectionStrategies (t : mitre_technique)
  : option (list mitre_detection_strategy) :=
  let '(mkTechnique _ _ _ _ _ _ _ _ _ d) := t in d.

(** [{ ...t, subtechniques: s }] *)
Definition set_subtechniques (t : mitre_technique) (s : option (list mitre_technique))
  : mitre_technique :=
  let '(mkTechnique i n e u d ts b p _ ds) := t in mkTechnique i n e u d ts b p s ds.

(** [t.detectionStrategies = ds] *)
Definition set_detectionStrategies (t : mitre_technique)
           (ds : option (list mitre_detection_strategy)) : mitre_technique :=
  let '(mkTechnique i n e u d ts b p s _) := t in mkTechnique i n e u d ts b p s ds.

(** *** String helpers *)

(** [s.includes('.')] *)
Definition includes_dot (s : string) : bool :=
  existsb (Ascii.eqb "."%char) (list_ascii_of_string s).

(** [s.split('.')[0]] *)
Fixpoint before_dot (s : string) : string :=
  match s with
  | EmptyString => EmptyString
  | String c rest => if Ascii.eqb c "."%char then EmptyString else String c (before_dot rest)
  end.

(** [s.replace('.', '/')]: the first dot only. *)
Fixpoint replace_first_dot (s : string) : string :=
  match s with
  | EmptyString => EmptyString
  | String c rest =>
      if Ascii.eqb c "."%char then String "/"%char rest
      else String c (replace_first_dot rest)
  end.

(** *** [convertToTechniques] *)

(** [refs.find((ref) => ref.source_name === 'mitre-attack' && ref.external_id)] *)
Definition find_mitre_ref (refs : list stix_external_reference)
  : option stix_external_reference :=
  find (fun r => String.eqb (source_name r) "mitre-attack" && Js.truthy_str (external_id r))
       refs.

(** [mitreRef?.external_id || ''] *)
Definition external_id_or_empty (r : option stix_external_reference) : string :=
  match r with
  | Some r => match external_id r with Some e => e | None => "" end
  | None => ""
  end.

(** [mitreRef?.url || fallback] *)
Definition url_or (r : option stix_external_reference) (fallback : string) : string :=
  match r with
  | Some r =>
      match url r with
      | Some u => if String.eqb u "" then fallback else u
      | None => fallback
      end
  | None => fallback
  end.

Definition convert_technique (pattern : stix_attack_pattern) : mitre_technique :=
  let mitreRef := find_mitre_ref (ap_external_references pattern) in
  let externalId := external_id_or_empty mitreRef in
  let isSubtechnique :=
    match ap_x_mitre_is_subtechnique pattern with Some true => true | _ => false end in
  let parentTechniqueId :=
    if isSubtechnique && includes_dot externalId then Some (before_dot externalId) else None in
  let tacticShortNames :=
    map phase_name
      (filter (fun phase => String.eqb (kill_chain_name phase) "mitre-attack")
              (match ap_kill_chain_phases pattern with Some l => l | None => [] end)) in
  mkTechnique (ap_id pattern) (ap_name pattern) externalId
    (url_or mitreRef ("https://attack.mitre.org/techniques/" ++ replace_first_dot externalId))
    (if String.eqb (ap_description pattern) "" then "" else ap_description pattern)
    tacticShortNames isSubtechnique parentTechniqueId None None.

(** [convertToTechniques] *)
Definition convertToTechniques (attackPatterns : list stix_attack_pattern)
  : list mitre_technique :=
  map convert_technique attackPatterns.

(** *** [extractDetectsRelationships] *)

Record stix_relationship := mkRelationship {
  rel_id : string;
  relationship_type_ : string;
  source_ref_ : string;
  target_ref_ : string;
  rel_x_mitre_deprecated : option bool }.

Definition keep_detects (obj : stix_object) : bool :=
  String.eqb (type_ obj) "relationship" &&
  (match relationship_type obj with Some r => String.eqb r "detects" | None => false end) &&
  negb (truthy_bool (x_mitre_deprecated obj)) &&
  Js.truthy_str (source_ref obj) &&
  Js.truthy_str (target_ref obj).

Definition string_or_empty (s : option string) : string :=
  match s with Some s => s | None => "" end.

Definition to_relationship (obj : stix_object) : stix_relationship :=
  mkRelationship (id obj) (string_or_empty (relationship_type obj))
    (string_or_empty (source_ref obj)) (string_or_empty (target_ref obj))
    (x_mitre_deprecated obj).

(** [extractDetectsRelationships] *)
Definition extractDetectsRelationships (objects : list stix_object)
  : list stix_relationship :=
  map to_relationship (filter keep_detects objects).

(** *** [linkDetectionStrategiesToTechniques] *)

(** The analytics of a strategy: its [x_mitre_analytic_refs] found in the
    analytics map, in order. *)
Definition analytics_for_strategy (analyticsMap : js_map stix_analytic)
           (strategy : stix_detection_strategy) : list mitre_analytic :=
  match ds_x_mitre_analytic_refs strategy with
  | None => []
  | Some refs =>
      flat_map (fun analyticRef =>
                  match map_get analyticsMap analyticRef with
                  | Some analytic =>
                      [mkMitreAnalytic (an_id analytic) (an_name analytic)
                         (external_id_or_empty
                            (find_mitre_ref (an_external_references analytic)))
                         (match an_x_mitre_platforms analytic with
                          | Some p => p | None => [] end)]
                  | None => []
                  end) refs
  end.

(** The entry pushed onto [technique.detectionStrategies]. *)
Definition strategy_entry (analyticsMap : js_map stix_analytic)
           (strategy : stix_detection_strategy) : mitre_detection_strategy :=
  let mitreRef := find_mitre_ref (ds_external_references strategy) in
  mkMitreStrategy (ds_id strategy) (ds_name strategy)
    (external_id_or_empty mitreRef) (url_or mitreRef "")
    (analytics_for_strategy analyticsMap strategy).

(** [techniqueIdMap]: the technique objects are the elements of the
    [techniques] array, referred to by their index. *)
Fixpoint technique_id_map (m : js_map nat) (i : nat) (ts : list mitre_technique)
  : js_map nat :=
  match ts with
  | [] => m
  | t :: rest => technique_id_map (map_set m (tech_id t) i) (S i) rest
  end.

(** Mutating the [i]-th technique object. *)
Fixpoint update_nth {A} (l : list A) (i : nat) (f : A -> A) : list A :=
  match l, i with
  | [], _ => []
  | x :: rest, O => f x :: rest
  | x :: rest, S i' => x :: update_nth rest i' f
  end.

Definition push_strategy (e : mitre_detection_strategy) (t : mitre_technique)
  : mitre_technique :=
  set_detectionStrategies t
    (Some (match tech_detectionStrategies t with Some l => l | None => [] end ++ [e])).

(** [linkDetectionStrategiesToTechniques]: the [techniques] array after the
    mutation. *)
Definition linkDetectionStrategiesToTechniques (techniques : list mitre_technique)
           (detectionStrategies : js_map stix_detection_strategy)
           (analyticsMap : js_map stix_analytic)
           (detectsRelationships : list stix_relationship) : list mitre_technique :=
  let techniqueIdMap := technique_id_map [] 0 techniques in
  fold_left
    (fun ts relationship =>
       match map_get techniqueIdMap (target_ref_ relationship),
             map_get detectionStrategies (source_ref_ relationship) with
       | Some i, Some strategy =>
           update_nth ts i (push_strategy (strategy_entry analyticsMap strategy))
       | _, _ => ts
       end)
    detectsRelationships techniques.

(** *** [collectAvailablePlatforms] *)

(** [set.add(x)] on a [Set] in insertion order. *)
Definition set_add (s : list string) (x : string) : list string :=
  if existsb (String.eqb x) s then s else s ++ [x].

(** [Array.prototype.sort()] without comparator orders strings by code
    units; on strings without duplicates (a [Set]) its result is the one
    sorted permutation, computed here by insertion. *)
Fixpoint insert_sorted (x : string) (l : list string) : list string :=
  match l with
  | [] => [x]
  | y :: rest => if String.leb x y then x :: l else y :: insert_sorted x rest
  end.

Definition sort_strings (l : list string) : list string :=
  fold_right insert_sorted [] l.

(** [collectAvailablePlatforms] *)
Definition collectAvailablePlatforms (analyticsMap : js_map stix_analytic) : list string :=
  let platformsSet :=
    fold_left
      (fun s analytic =>
         match an_x_mitre_platforms analytic with
         | Some ps => fold_left set_add ps s
         | None => s
         end)
      (map snd analyticsMap) [] in
  sort_strings platformsSet.

(** *** [buildMatrix] *)

(** [Map.get] followed by a mutation of the value found. *)
Fixpoint map_update {V} (m : js_map V) (k : string) (f : V -> V) : js_map V :=
  match m with
  | [] => []
  | (k', v) :: rest =>
      if String.eqb k k' then (k', f v) :: rest else (k', v) :: map_update rest k f
  end.

(** [parent.subtechniques.push(sub)] *)
Definition push_subtechnique (sub : mitre_technique) (parent : mitre_technique)
  : mitre_technique :=
  match tech_subtechniques parent with
  | Some subs => set_subtechniques parent (Some (subs ++ [sub]))
  | None => parent
  end.

Section BuildMatrix.
(** [arr.sort((a, b) => a.name.localeCompare(b.name))]: the order depends on
    the locale's collation; the code relies on it returning a permutation. *)
Variable sort_by_name : list mitre_technique -> list mitre_technique.

Definition sort_subtechniques (t : mitre_technique) : mitre_technique :=
  match tech_subtechniques t with
  | Some subs => set_subtechniques t (Some (sort_by_name subs))
  | None => t
  end.

(** [buildMatrix] *)
Definition buildMatrix (techniques : list mitre_technique)
           (availablePlatforms : list string) : mitre_matrix_data :=
  let parentTechniques := filter (fun t => negb (tech_isSubtechnique t)) techniques in
  let subtechniques := filter tech_isSubtechnique techniques in
  let techniqueMap :=
    fold_left (fun m t => map_set m (tech_externalId t) (set_subtechniques t (Some [])))
              parentTechniques [] in
  let techniqueMap :=
    fold_left
      (fun m sub =>
         match tech_parentTechniqueId sub with
         | Some p =>
             if String.eqb p "" then m
             else map_update m p (push_subtechnique sub)
         | None => m
         end)
      subtechniques techniqueMap in
  let techniqueMap := map (fun '(k, t) => (k, sort_subtechniques t)) techniqueMap in
  let tactics :=
    map (fun tactic =>
           mkTacticWithTechniques tactic
             (sort_by_name
                (filter (fun t => existsb (String.eqb (shortName tactic))
                                          (tech_tacticShortNames t))
                        (map snd techniqueMap))))
        MITRE_TACTICS_ORDER in
  mkMatrix tactics availablePlatforms.
End BuildMatrix.

(** *** [getMatrix] *)

(** [getMatrix] from [cachedMatrix] (a matrix object is always truthy): the
    result and the new cache. *)
Definition getMatrix (build : list json -> res mitre_matrix_data)
           (cachedMatrix : option mitre_matrix_data) (f : stix_file)
  : res mitre_matrix_data * option mitre_matrix_data :=
  match cachedMatrix with
  | Some m => (Ok m, cachedMatrix)
  | None =>
      match parseMatrix build f with
      | Ok m => (Ok m, Some m)
      | Thrown => (Thrown, None)
      end
  end.

(** Successive calls, each finding the data file in the given state. *)
Fixpoint getMatrix_calls (build : list json -> res mitre_matrix_data)
         (cachedMatrix : option mitre_matrix_data) (files : list stix_file)
  : list (res mitre_matrix_data) :=
  match files with
  | [] => []
  | f :: rest =>
      let '(r, c) := getMatrix build cachedMatrix f in
      r :: getMatrix_calls build c rest
  end.

(** [clearCache] *)
Definition clearCache (cachedMatrix : option mitre_matrix_data)
  : option mitre_matrix_data := None.

End Matrix.

(* ------------------------------------------------------------------ *)
(** ** Views used to state properties of the passes and the settings *)

Module Views.
Import Scoring Runner.
Local Open Scope list_scope.

(** Every configured value of a settings map lies in [0,5]. *)
Definition settings_in_range (settings : list (string * Q)) : Prop :=
  forall k v, In (k, v) settings -> 0 <= v <= 5.

(** The identifiers of the hits of a page that [processAllAnalytics]
    recomputes: hits with a [_source] and a non-empty
    [x_mitre_log_source_references]. *)
Definition analytic_ids_with_refs (hs : list (option analytic_doc)) : list string :=
  flat_map (fun h =>
              match h with
              | Some a =>
                  match a_refs a with
                  | None | Some [] => []
                  | Some _ => [a_id a]
                  end
              | None => []
              end) hs.

Definition hits_of (r : option page) : list (option analytic_doc) :=
  match r with Some p => hits p | None => [] end.

(** The pages up to, and without, the first page with no hits. *)
Fixpoint take_nonempty (pages : list (list (option analytic_doc)))
  : list (list (option analytic_doc)) :=
  match pages with
  | [] => []
  | [] :: _ => []
  | hs :: rest => hs :: take_nonempty rest
  end.

(** [analyticNeedsRecalculation] on the [next_execution] of each
    reference ([None] when absent), at time [now]: the loop returns at the
    first reference with no [next_execution] or with one that has elapsed. *)
Fixpoint needs_recalculation (now : Z) (nextExecutions : list (option Z)) : bool :=
  match nextExecutions with
  | [] => false
  | None :: _ => true
  | Some t :: rest => if Z.leb t now then true else needs_recalculation now rest
  end.

Definition analyticNeedsRecalculation (now : Z) (analytic : result_doc) : bool :=
  needs_recalculation now (r_next_executions analytic).

(** The number of commas of a string. *)
Fixpoint count_commas (s : string) : nat :=
  match s with
  | EmptyString => 0
  | String c rest => (if Ascii.eqb c ","%char then 1 else 0) + count_commas rest
  end.

(** A subtechnique that [buildMatrix] attaches to the parent technique of
    external id [e]: its [parentTechniqueId] is truthy and equal to [e]. *)
Definition attached_to (e : string) (s : Parser.mitre_technique) : bool :=
  Matrix.tech_isSubtechnique s &&
  match Matrix.tech_parentTechniqueId s with
  | Some p => negb (String.eqb p "") && String.eqb p e
  | None => false
  end.

(** The detection-strategy entries that the detects relationships give a
    technique of identifier [tid], in relationship order: one for each
    relationship targeting [tid] whose source strategy is known. *)
Definition link_entries (detectionStrategies : Parser.js_map Parser.stix_detection_strategy)
           (analyticsMap : Parser.js_map Parser.stix_analytic)
           (rels : list Matrix.stix_relationship) (tid : string)
  : list Parser.mitre_detection_strategy :=
  flat_map (fun rel =>
              if String.eqb (Matrix.target_ref_ rel) tid then
                match Parser.map_get detectionStrategies (Matrix.source_ref_ rel) with
                | Some strategy => [Matrix.strategy_entry analyticsMap strategy]
                | None => []
                end
              else []) rels.

(** A technique after [linkDetectionStrategiesToTechniques] has pushed the
    entries [es]: unchanged without entries, otherwise its
    [detectionStrategies] extended by them. *)
Definition with_strategies (t : Parser.mitre_technique)
           (es : list Parser.mitre_detection_strategy) : Parser.mitre_technique :=
  match es with
  | [] => t
  | _ :: _ =>
      Matrix.set_detectionStrategies t
        (Some (match Matrix.tech_detectionStrategies t with Some l => l | None => [] end ++ es))
  end.

(** The loop body of [collectAvailablePlatforms]. *)
Definition platforms_step (s : list string) (analytic : Parser.stix_analytic) : list string :=
  match Parser.an_x_mitre_platforms analytic with
  | Some ps => fold_left Matrix.set_add ps s
  | None => s
  end.

(** An analytic of the map offers platform [x]. *)
Definition offers_platform (analyticsMap : Parser.js_map Parser.stix_analytic) (x : string)
  : Prop :=
  exists k a ps, In (k, a) analyticsMap /\ Parser.an_x_mitre_platforms a = Some ps /\ In x ps.

End Views.

(* ================================================================== *)
(** * Properties *)

Module ScoringFacts.
Import Scoring.

Lemma floor_ge (lo : Z) (x : Q) : inject_Z lo <= x -> (lo <= Qfloor x)%Z.
Proof.
  intros H. pose proof (Qlt_floor x) as Hf.
  assert (Hlt : inject_Z lo < inject_Z (Qfloor x + 1)) by (eapply Qle_lt_trans; eauto).
  rewrite <- Zlt_Qlt in Hlt. lia.
Qed.

Lemma floor_lt (hi : Z) (x : Q) : x < inject_Z hi -> (Qfloor x < hi)%Z.
Proof.
  intros H. pose proof (Qfloor_le x) as Hf.
  assert (Hlt : inject_Z (Qfloor x) < inject_Z hi) by (eapply Qle_lt_trans; eauto).
  rewrite <- Zlt_Qlt in Hlt. exact Hlt.
Qed.

(** [Math.round] of a number between two integers stays between them. *)
Lemma round_q_bounds (lo hi : Z) (q : Q) :
  inject_Z lo <= q -> q <= inject_Z hi ->
  inject_Z lo <= round_q q /\ round_q q <= inject_Z hi.
Proof.
  intros Hlo Hhi. unfold round_q. rewrite <- !Zle_Qle. split.
  - apply floor_ge. lra.
  - cut (Qfloor (q + (1 # 2)) < hi + 1)%Z; [lia|].
    apply floor_lt. rewrite inject_Z_plus. change (inject_Z 1) with 1. lra.
Qed.

(** The jitter [Math.floor(Math.random() * 301) + 60] lies in [60, 360]. *)
Lemma random_seconds_range (r : Q) :
  0 <= r < 1 ->
  (60 <= Qfloor (r * inject_Z (360 - 60 + 1)) + 60 <= 360)%Z.
Proof.
  intros [H0 H1]. simpl (360 - 60 + 1)%Z.
  split.
  - cut (0 <= Qfloor (r * inject_Z 301))%Z; [lia|].
    apply floor_ge. change (inject_Z 0) with 0. change (inject_Z 301) with 301. lra.
  - cut (Qfloor (r * inject_Z 301) < 301)%Z; [lia|].
    apply floor_lt. change (inject_Z 301) with 301. lra.
Qed.

Lemma next_execution_of_scores svc store now r ref platform :
  next_execution (fst (calculateScoresForLogSource svc store now r ref platform))
  = calculateNextExecution svc now r.
Proof. reflexivity. Qed.

Lemma query_of_scores svc store now r ref platform :
  snd (calculateScoresForLogSource svc store now r ref platform)
  = cr_query (calculateDataFieldCompletenessScore store (status ref) (confidence ref)
                (name_field (ecs ref)) (name_value (ecs ref))
                (if String.eqb (status ref) "complete" then Some (channel_field (ecs ref)) else None)
                (if String.eqb (status ref) "complete" then Some (channel_value (ecs ref)) else None)).
Proof. reflexivity. Qed.

Lemma query_of_completeness store st conf nf nv cf cv :
  cr_query (calculateDataFieldCompletenessScore store st conf nf nv cf cv)
  = if String.eqb st "unmapped" then None else snd (queryFieldExists store nf nv cf cv).
Proof.
  unfold calculateDataFieldCompletenessScore.
  destruct (String.eqb st "unmapped"); [reflexivity|].
  destruct (queryFieldExists store nf nv cf cv); reflexivity.
Qed.

Lemma query_of_probe store nf nv cf cv :
  snd (queryFieldExists store nf nv cf cv)
  = if String.eqb nf "" || String.eqb nv "" then None
    else Some (must_clauses nf nv cf cv).
Proof.
  unfold queryFieldExists.
  destruct (String.eqb nf "" || String.eqb nv ""); [reflexivity|].
  destruct (store _) as [[d|]|]; reflexivity.
Qed.

Lemma completeness_score_constructor store conf nf nv cf cv :
  conf = "high" \/ conf <> "high" ->
  cr_score (calculateDataFieldCompletenessScore store "constructor" conf nf nv cf cv) = VNaN.
Proof.
  intros _. unfold calculateDataFieldCompletenessScore. simpl.
  destruct (queryFieldExists store nf nv cf cv) as [[e ld] q].
  destruct e; reflexivity.
Qed.

(** C1 (the status multiplier lookup reaches [Object.prototype]): with the
    status ["constructor"], which is neither ['unmapped'] nor a key of
    [statusMultipliers], [statusMultipliers[status] ?? 0] is the function
    [Object], not 0, and the completeness score is [NaN] whatever the probe
    returns, instead of the claimed 0. *)
Theorem completeness_prototype_status (store : log_store) (nf nv : string)
        (cf cv : option string) :
  cr_score (calculateDataFieldCompletenessScore store "constructor" "high" nf nv cf cv)
  = VNaN.
Proof. apply completeness_score_constructor. left. reflexivity. Qed.

(** C2 (same defect as C1): for a log-source reference with status
    ["constructor"] the data-field completeness score is [NaN], which is not
    in [0,5], and so is the aggregate [quality_score], whatever the settings,
    the platform and the probe. *)
Theorem scores_prototype_status (svc : service) (store : log_store) (now : Z) (r : Q)
        (nf nv cf cv : string) (platform : option string) :
  let s := fst (calculateScoresForLogSource svc store now r
                  (mkRef (mkEcs nf nv cf cv) "constructor" "high") platform) in
  data_field_completeness s = VNaN /\ quality_score s = VNaN.
Proof.
  unfold calculateScoresForLogSource. cbn zeta. cbn [fst data_field_completeness quality_score].
  rewrite completeness_score_constructor by (left; reflexivity). split; reflexivity.
Qed.

(** C8: every [next_execution] computed while scoring a log-source reference
    is strictly after the computation time [now], lies within
    [refreshDelayMs + 60 s, refreshDelayMs + 360 s] of it for every draw
    [r] of [Math.random()], and [refreshDelayMs] is 7 days when the service
    is constructed without one (as the plugin does). *)
Theorem next_execution_window (delay : option Z) (dev ret : list (string * Q))
        (store : log_store) (now : Z) (r : Q) (ref : log_source_reference)
        (platform : option string) :
  (forall d, delay = Some d -> (0 <= d)%Z) ->
  0 <= r < 1 ->
  let svc := new_service delay dev ret in
  let t := next_execution (fst (calculateScoresForLogSource svc store now r ref platform)) in
  (now < t)%Z /\
  (refreshDelayMs svc + 60000 <= t - now <= refreshDelayMs svc + 360000)%Z /\
  (delay = None -> refreshDelayMs svc = 604800000%Z).
Proof.
  intros Hd Hr svc t. subst t. rewrite next_execution_of_scores.
  unfold calculateNextExecution.
  pose proof (random_seconds_range r Hr) as Hs.
  assert (Hsvc : (0 <= refreshDelayMs svc)%Z).
  { subst svc. destruct delay as [d|]; simpl; [apply Hd; reflexivity | discriminate]. }
  repeat split; try lia.
  intros ->. reflexivity.
Qed.

Lemma next_execution_window_witness :
  let svc := new_service None [] [] in
  let ref := mkRef (mkEcs "event.code" "4688" "" "") "complete" "high" in
  let t := next_execution (fst (calculateScoresForLogSource svc (fun _ => Some None)
                                  0 (1 # 2) ref None)) in
  (0 < t)%Z /\
  (refreshDelayMs svc + 60000 <= t - 0 <= refreshDelayMs svc + 360000)%Z /\
  (@None Z = None -> refreshDelayMs svc = 604800000%Z).
Proof.
  apply (next_execution_window None [] [] (fun _ => Some None) 0 (1 # 2)).
  - intros d Hd. discriminate.
  - split; vm_compute; [discriminate | reflexivity].
Defined.

(** C9 (as amended): a reference with status ['unmapped'], or with an empty
    name field or value, is not probed; any other reference is probed with
    one query whose first clause is the name term, followed by channel
    clauses (on [channel_field]) exactly when the status is ['complete'] and
    both [channel_field] and [channel_value] are non-empty. *)
Theorem probe_channel_clause (svc : service) (store : log_store) (now : Z) (r : Q)
        (ref : log_source_reference) (platform : option string) :
  let q := snd (calculateScoresForLogSource svc store now r ref platform) in
  let m := ecs ref in
  ((status ref = "unmapped" \/ name_field m = "" \/ name_value m = "") -> q = None) /\
  (status ref <> "unmapped" -> name_field m <> "" -> name_value m <> "" ->
     exists cl, q = Some (Term (name_field m) (name_value m) :: cl) /\
       (cl <> [] <-> (status ref = "complete" /\ channel_field m <> "" /\ channel_value m <> "")) /\
       Forall (fun c => clause_field c = channel_field m) cl).
Proof.
  intros q m. subst q m.
  rewrite query_of_scores, query_of_completeness, query_of_probe.
  destruct ref as [[nf nv cf cv] st conf]. cbn [ecs status name_field name_value channel_field channel_value].
  split.
  - intros H.
    destruct (String.eqb_spec st "unmapped"); [reflexivity|].
    destruct (String.eqb_spec nf ""), (String.eqb_spec nv ""); simpl; try reflexivity.
    intuition congruence.
  - intros Hst Hnf Hnv.
    destruct (String.eqb_spec st "unmapped"); [contradiction|].
    destruct (String.eqb_spec nf ""); [contradiction|].
    destruct (String.eqb_spec nv ""); [contradiction|]. simpl.
    unfold must_clauses.
    eexists. split; [reflexivity|].
    destruct (String.eqb_spec st "complete") as [Hc|Hc]; simpl.
    + unfold truthy_str.
      destruct (String.eqb_spec cf ""), (String.eqb_spec cv ""); simpl;
        try (split; [split; [intros H; congruence | intros (_ & H1 & H2); congruence]
                    | constructor]).
      destruct (Nat.eqb _ _); simpl;
          (split; [split; [intros _; auto | intros _; discriminate] | repeat constructor]).
    + split; [split; [intros []; reflexivity | intuition] | constructor].
Qed.

Lemma probe_channel_clause_witness :
  let ref := mkRef (mkEcs "winlog.channel" "Security" "event.code" "4688, 4689")
                   "complete" "high" in
  exists cl, snd (calculateScoresForLogSource (new_service None [] []) (fun _ => Some None)
                   0 0 ref None) = Some (Term "winlog.channel" "Security" :: cl) /\
    (cl <> [] <-> ("complete" = "complete" /\ "event.code" <> "" /\ "4688, 4689" <> "")) /\
    Forall (fun c => clause_field c = "event.code") cl.
Proof.
  apply (proj2 (probe_channel_clause (new_service None [] []) (fun _ => Some None) 0 0
                  (mkRef (mkEcs "winlog.channel" "Security" "event.code" "4688, 4689")
                     "complete" "high") None));
    simpl; discriminate.
Defined.

(** Counterexample to C9 as stated: a reference whose status is
    ['complete'] but whose mapping has no channel field is probed on the
    name clause alone. *)
Lemma probe_channel_clause_counterexample :
  let ref := mkRef (mkEcs "event.dataset" "system.auth" "" "") "complete" "high" in
  status ref = "complete" /\
  snd (calculateScoresForLogSource (new_service None [] []) (fun _ => Some None) 0 0 ref None)
  = Some [Term "event.dataset" "system.auth"].
Proof. split; reflexivity. Qed.

End ScoringFacts.

Module RunnerFacts.
Import Scoring Runner Samples.
Local Open Scope list_scope.

Lemma process_hits_no_clear ok hs :
  forallb (fun o => negb (is_clear o)) (process_hits ok hs) = true.
Proof.
  induction hs as [|h hs IH]; [reflexivity|].
  unfold process_hits in *. simpl. rewrite forallb_app, IH, andb_true_r.
  destruct h as [a|]; [|reflexivity]. unfold process_hit.
  destruct (a_refs a) as [[|]|]; try reflexivity.
  simpl. destruct (ok (a_id a)); reflexivity.
Qed.

Lemma scan_loop_no_clear ok rest : forall hs sid,
  forallb (fun o => negb (is_clear o)) (fst (scan_loop ok hs sid rest)) = true.
Proof.
  induction rest as [|r rest IH]; intros hs sid;
    (destruct hs as [|h hs]; [reflexivity|]);
    (destruct sid as [s|]; cbn [scan_loop fst]; [|apply process_hits_no_clear]);
    (destruct (String.eqb s ""); cbn [fst]; [apply process_hits_no_clear|]).
  - rewrite forallb_app, process_hits_no_clear. reflexivity.
  - destruct r as [p|].
    + specialize (IH (hits p) (scroll_id p)).
      destruct (scan_loop ok (hits p) (scroll_id p) rest) as [ops' r'].
      cbn [fst] in *. rewrite forallb_app, process_hits_no_clear. simpl. exact IH.
    + cbn [fst]. rewrite forallb_app, process_hits_no_clear. reflexivity.
Qed.

Lemma scan_loop_completes ok rest : forall hs sid,
  truthy_str sid = true ->
  Forall (fun r => exists p, r = Some p /\ truthy_str (scroll_id p) = true) rest ->
  exists s, snd (scan_loop ok hs sid rest) = Ok (Some s) /\ String.eqb s "" = false.
Proof.
  induction rest as [|r rest IH]; intros hs sid Hsid Hrest;
    (destruct sid as [s|]; [|discriminate]);
    (assert (Es : String.eqb s "" = false)
       by (unfold truthy_str in Hsid; destruct (String.eqb s ""); [discriminate|reflexivity]));
    (destruct hs as [|h hs]; [exists s; split; [reflexivity|exact Es]|]);
    cbn [scan_loop]; rewrite Es.
  - exists s. split; [reflexivity|exact Es].
  - inversion Hrest as [|? ? [p [-> Hp]] Hrest']; subst.
    destruct (scan_loop ok (hits p) (scroll_id p) rest) as [ops' r'] eqn:E.
    destruct (IH (hits p) (scroll_id p) Hp Hrest') as [s' Hs'].
    rewrite E in Hs'. exists s'. exact Hs'.
Qed.

(** C5 (as amended): [processAllAnalytics] clears the scroll only when the
    scan loop ends normally, at a page with no hits, with a present and
    non-empty last scroll id: every response up to there carrying one, the
    pass issues [clearScroll] followed by the results-index refresh, or by
    nothing when [clearScroll] fails; the refresh's own outcome plays no
    part.  When a [scroll] continuation throws, the error propagates and no
    [clearScroll] is issued.  When the loop ends with a missing or empty
    scroll id (the early [break], or a last response without one), no
    [clearScroll] is issued either. *)
Theorem scroll_cleared_after_scan (e : scan_env) :
  (forall p, ecs_exists e = Some true -> first_page e = Some p ->
     truthy_str (scroll_id p) = true ->
     Forall (fun r => exists p', r = Some p' /\ truthy_str (scroll_id p') = true) (next_pages e) ->
     exists s pre, fst (processAllAnalytics e)
                   = pre ++ OpClearScroll s :: (if clear_ok e then [OpRefresh] else [])) /\
  (forall p, ecs_exists e = Some true -> first_page e = Some p ->
     snd (scan_loop (recompute_ok e) (hits p) (scroll_id p) (next_pages e)) = Thrown ->
     snd (processAllAnalytics e) = Thrown /\
     forallb (fun o => negb (is_clear o)) (fst (processAllAnalytics e)) = true) /\
  (forall p sid, ecs_exists e = Some true -> first_page e = Some p ->
     snd (scan_loop (recompute_ok e) (hits p) (scroll_id p) (next_pages e)) = Ok sid ->
     truthy_str sid = false ->
     forallb (fun o => negb (is_clear o)) (fst (processAllAnalytics e)) = true).
Proof.
  split; [|split].
  - intros p Hx Hp Hsid Hrest.
    destruct (scan_loop_completes (recompute_ok e) (next_pages e) (hits p) (scroll_id p) Hsid Hrest)
      as [s [Hs Es]].
    unfold processAllAnalytics. rewrite Hx, Hp.
    destruct (scan_loop (recompute_ok e) (hits p) (scroll_id p) (next_pages e)) as [ops r] eqn:E.
    simpl in Hs. subst r. rewrite Es. exists s, (OpOpenScroll (scroll_id p) :: ops).
    destruct (clear_ok e); cbn [fst]; [rewrite <- app_assoc|]; reflexivity.
  - intros p Hx Hp Hth.
    pose proof (scan_loop_no_clear (recompute_ok e) (next_pages e) (hits p) (scroll_id p)) as Hn.
    unfold processAllAnalytics. rewrite Hx, Hp.
    destruct (scan_loop (recompute_ok e) (hits p) (scroll_id p) (next_pages e)) as [ops r] eqn:E.
    simpl in Hth, Hn. subst r. simpl. split; [reflexivity | exact Hn].
  - intros p sid Hx Hp Hok Hsid.
    pose proof (scan_loop_no_clear (recompute_ok e) (next_pages e) (hits p) (scroll_id p)) as Hn.
    unfold processAllAnalytics. rewrite Hx, Hp.
    destruct (scan_loop (recompute_ok e) (hits p) (scroll_id p) (next_pages e)) as [ops r] eqn:E.
    simpl in Hok, Hn. subst r.
    assert (Hcl : forallb (fun o => negb (is_clear o)) (OpOpenScroll (scroll_id p) :: ops) = true)
      by exact Hn.
    destruct sid as [s|].
    + unfold truthy_str in Hsid. destruct (String.eqb s ""); [|discriminate].
      destruct (refresh_ok e); cbn [fst];
        rewrite forallb_app, Hcl; reflexivity.
    + destruct (refresh_ok e); cbn [fst]; rewrite forallb_app, Hcl; reflexivity.
Qed.

Lemma scroll_cleared_after_scan_witness :
  (exists s pre, fst (processAllAnalytics refresh_error_env)
                 = pre ++ OpClearScroll s :: (if clear_ok refresh_error_env then [OpRefresh] else [])) /\
  (snd (scan_loop (recompute_ok break_env) (hits (mkPage [Some (sample_analytic "x-mitre-analytic--1")] (Some "scroll-1")))
          (Some "scroll-1") (next_pages break_env)) = Ok None /\
   forallb (fun o => negb (is_clear o)) (fst (processAllAnalytics break_env)) = true).
Proof.
  split.
  - apply (proj1 (scroll_cleared_after_scan refresh_error_env)
             (mkPage [Some (sample_analytic "x-mitre-analytic--1")] (Some "scroll-1")));
      try reflexivity.
    repeat constructor. eexists. split; reflexivity.
  - split; [reflexivity|].
    apply (proj2 (proj2 (scroll_cleared_after_scan break_env))
             (mkPage [Some (sample_analytic "x-mitre-analytic--1")] (Some "scroll-1")) None);
      reflexivity.
Defined.

(** Counterexample to C5 as stated: when the first [scroll] continuation
    throws, the pass ends with the error and no [clearScroll] is issued for
    the open scroll ["scroll-1"]; when it answers a page without a scroll
    id, the loop breaks after that page and the pass completes without
    clearing ["scroll-1"] either. *)
Lemma scroll_left_open_counterexample :
  processAllAnalytics scroll_error_env =
    ([OpOpenScroll (Some "scroll-1"); OpProcess "x-mitre-analytic--1";
      OpIndex "x-mitre-analytic--1"; OpScroll "scroll-1"], Thrown) /\
  existsb is_clear (fst (processAllAnalytics scroll_error_env)) = false /\
  processAllAnalytics break_env =
    ([OpOpenScroll (Some "scroll-1"); OpProcess "x-mitre-analytic--1";
      OpIndex "x-mitre-analytic--1"; OpScroll "scroll-1"; OpProcess "x-mitre-analytic--2";
      OpIndex "x-mitre-analytic--2"; OpRefresh], Ok tt) /\
  existsb is_clear (fst (processAllAnalytics break_env)) = false.
Proof. repeat split; reflexivity. Qed.

Lemma smart_body_init (e : smart_env) :
  results_exists e = Some false \/
  (results_exists e = Some true /\ count_ok e = true /\ results e = []) ->
  smart_body e = (fst (processAllAnalytics (full e)),
                  init_result (snd (processAllAnalytics (full e)))).
Proof.
  intros H. unfold smart_body.
  destruct (processAllAnalytics (full e)) as [ops r].
  destruct H as [H | (H & Hc & Hr)]; rewrite H; [reflexivity|].
  rewrite Hc, Hr. reflexivity.
Qed.

Lemma smart_body_due (e : smart_env) :
  results_exists e = Some true -> count_ok e = true -> results e <> [] ->
  smart_body e =
    match getAnalyticsNeedingRecalculation e with
    | [] => ([], Ok (ANone, 0%Z))
    | due => (recompute_ops e due ++ [OpRefresh],
              if refresh_ok' e
              then Ok (AUpdate, Z.of_nat (length due)) else Thrown)
    end.
Proof.
  intros Hx Hc Hr. unfold smart_body. rewrite Hx, Hc. cbn [negb].
  destruct (Nat.eqb_spec (length (results e)) 0) as [Hl|Hl].
  - apply length_zero_iff_nil in Hl. contradiction.
  - destruct (getAnalyticsNeedingRecalculation e); reflexivity.
Qed.

Lemma recomputed_ops e due :
  recomputed (recompute_ops e due ++ [OpRefresh]) = map r_id due.
Proof.
  unfold recomputed, recompute_ops. rewrite flat_map_app. simpl. rewrite app_nil_r.
  induction due as [|d due IH]; [reflexivity|].
  simpl. destruct (recompute_ok' e (r_id d)); simpl; f_equal; exact IH.
Qed.

Lemma writes_ops e due :
  writes (recompute_ops e due ++ [OpRefresh])
  = map r_id (filter (fun d => recompute_ok' e (r_id d)) due).
Proof.
  unfold writes, recompute_ops. rewrite flat_map_app. simpl. rewrite app_nil_r.
  induction due as [|d due IH]; [reflexivity|].
  simpl. destruct (recompute_ok' e (r_id d)); simpl; [f_equal|]; exact IH.
Qed.

Lemma due_length (e : smart_env) :
  (length (getAnalyticsNeedingRecalculation e) <= 100)%nat.
Proof.
  unfold getAnalyticsNeedingRecalculation.
  destruct (due_search_ok e); [apply firstn_le_length | apply Nat.le_0_l].
Qed.

(** C3 (as amended): with no pass running, [runSmartScoringWithClient]
    leaves the flag cleared and
    - when the results index is absent, or present with count 0, it runs a
      full pass and returns [{init, -1}], or propagates the full pass's error;
    - otherwise the due analytics are those returned by one search capped at
      100 hits (the first 100 results with some [next_execution <= now]; none
      when the search fails): if there are none it returns [{none, 0}] and
      issues no operation; else it recomputes exactly those analytics, writes
      back exactly those whose recomputation and write succeed, refreshes, and
      returns [{update, N}] with [N] the number of analytics the capped search
      returned, or propagates the refresh error. *)
Theorem smart_pass_spec (e : smart_env) :
  let '(flag, ops, r) := runSmartScoringWithClient false e in
  flag = false /\
  ((results_exists e = Some false \/
    (results_exists e = Some true /\ count_ok e = true /\ results e = [])) ->
     ops = fst (processAllAnalytics (full e)) /\
     r = init_result (snd (processAllAnalytics (full e)))) /\
  (results_exists e = Some true -> count_ok e = true -> results e <> [] ->
     let due := getAnalyticsNeedingRecalculation e in
     (due = (if due_search_ok e
             then firstn 100 (filter (is_due (now e)) (results e)) else [])) /\
     (due = [] -> ops = [] /\ r = Ok (ANone, 0%Z)) /\
     (due <> [] ->
        recomputed ops = map r_id due /\
        writes ops = map r_id (filter (fun d => recompute_ok' e (r_id d)) due) /\
        r = (if refresh_ok' e then Ok (AUpdate, Z.of_nat (length due)) else Thrown))).
Proof.
  unfold runSmartScoringWithClient.
  destruct (smart_body e) as [ops r] eqn:Hb.
  split; [reflexivity|]. split.
  - intros H. rewrite smart_body_init in Hb by exact H.
    injection Hb as <- <-. split; reflexivity.
  - intros Hx Hc Hr. rewrite smart_body_due in Hb by assumption.
    split; [reflexivity|].
    destruct (getAnalyticsNeedingRecalculation e) as [|d ds] eqn:Hd.
    + injection Hb as <- <-. split; [intros _; split; reflexivity | intros H; congruence].
    + pose proof (f_equal fst Hb) as Ho. pose proof (f_equal snd Hb) as Hr'.
      cbn [fst snd] in Ho, Hr'. subst ops r. split; [discriminate|]. intros _.
      rewrite recomputed_ops, writes_ops. repeat split; reflexivity.
Qed.

Lemma smart_pass_spec_witness :
  let due := getAnalyticsNeedingRecalculation many_due_env in
  (due = (if due_search_ok many_due_env
          then firstn 100 (filter (is_due (now many_due_env)) (results many_due_env))
          else [])) /\
  (due = [] -> snd (fst (runSmartScoringWithClient false many_due_env)) = [] /\
               snd (runSmartScoringWithClient false many_due_env) = Ok (ANone, 0%Z)) /\
  (due <> [] ->
     recomputed (snd (fst (runSmartScoringWithClient false many_due_env))) = map r_id due /\
     writes (snd (fst (runSmartScoringWithClient false many_due_env)))
       = map r_id (filter (fun d => recompute_ok' many_due_env (r_id d)) due) /\
     snd (runSmartScoringWithClient false many_due_env)
       = (if refresh_ok' many_due_env
          then Ok (AUpdate, Z.of_nat (length due)) else Thrown)).
Proof.
  pose proof (smart_pass_spec many_due_env) as H.
  destruct (runSmartScoringWithClient false many_due_env) as [[flag ops] r] eqn:E.
  destruct H as (_ & _ & H). apply H; [reflexivity | reflexivity | discriminate].
Defined.

(** Counterexample to C3 as stated: 101 analytics are due, but the pass
    reports [{update, 100}] and the 101st due analytic is neither recomputed
    nor written. *)
Lemma smart_pass_more_than_100_due :
  length (filter (is_due (now many_due_env)) (results many_due_env)) = 101%nat /\
  snd (runSmartScoringWithClient false many_due_env) = Ok (AUpdate, 100%Z) /\
  ~ In (nth_id 101) (recomputed (snd (fst (runSmartScoringWithClient false many_due_env)))).
Proof. vm_compute. split; [reflexivity|]. split; [reflexivity|]. intuition discriminate. Qed.

(** C10: once the results index holds results, a smart pass recomputes at
    most 100 analytics and reports an update count of at most 100; when more
    than 100 analytics are due (and the due search succeeds), exactly the
    first page of 100 due analytics is recomputed. *)
Theorem smart_pass_capped (e : smart_env) :
  results_exists e = Some true -> count_ok e = true -> results e <> [] ->
  let '(_, ops, r) := runSmartScoringWithClient false e in
  (length (recomputed ops) <= 100)%nat /\
  (forall a n, r = Ok (a, n) -> (n <= 100)%Z) /\
  (due_search_ok e = true ->
   (100 < length (filter (is_due (now e)) (results e)))%nat ->
   recomputed ops = map r_id (firstn 100 (filter (is_due (now e)) (results e))) /\
   (forall a n, r = Ok (a, n) -> n = 100%Z)).
Proof.
  intros Hx Hc Hr.
  pose proof (due_length e) as Hlen.
  unfold runSmartScoringWithClient. rewrite smart_body_due by assumption.
  destruct (getAnalyticsNeedingRecalculation e) as [|d ds] eqn:Hd.
  - assert (Hno : due_search_ok e = true ->
                  (100 < length (filter (is_due (now e)) (results e)))%nat -> False).
    { intros Hs Hgt. unfold getAnalyticsNeedingRecalculation in Hd. rewrite Hs in Hd.
      apply (f_equal (@length _)) in Hd. rewrite length_firstn in Hd.
      cbn [length] in Hd. lia. }
    split; [apply Nat.le_0_l|]. split.
    + intros a n H. injection H as _ <-. lia.
    + intros Hs Hgt. exfalso. exact (Hno Hs Hgt).
  - cbv beta iota zeta. rewrite recomputed_ops, length_map.
    split; [exact Hlen|]. split.
    + intros a n H. destruct (refresh_ok' e); [|discriminate].
      assert (n = Z.of_nat (length (d :: ds))) as -> by congruence. lia.
    + intros Hs Hgt.
      assert (Hfd : d :: ds = firstn 100 (filter (is_due (now e)) (results e))).
      { rewrite <- Hd. unfold getAnalyticsNeedingRecalculation. rewrite Hs. reflexivity. }
      split; [rewrite Hfd; reflexivity|].
      intros a n H. destruct (refresh_ok' e); [|discriminate].
      assert (n = Z.of_nat (length (d :: ds))) as -> by congruence.
      rewrite Hfd, length_firstn. lia.
Qed.

Lemma smart_pass_capped_witness :
  (length (recomputed (snd (fst (runSmartScoringWithClient false many_due_env)))) <= 100)%nat /\
  (forall a n, snd (runSmartScoringWithClient false many_due_env) = Ok (a, n) -> (n <= 100)%Z) /\
  (due_search_ok many_due_env = true ->
   (100 < length (filter (is_due (now many_due_env)) (results many_due_env)))%nat ->
   recomputed (snd (fst (runSmartScoringWithClient false many_due_env)))
     = map r_id (firstn 100 (filter (is_due (now many_due_env)) (results many_due_env))) /\
   (forall a n, snd (runSmartScoringWithClient false many_due_env) = Ok (a, n) -> n = 100%Z)).
Proof.
  pose proof (smart_pass_capped many_due_env eq_refl eq_refl ltac:(discriminate)) as H.
  destruct (runSmartScoringWithClient false many_due_env) as [[flag ops] r].
  exact H.
Defined.

End RunnerFacts.

Module GuardFacts.
Import Runner Guard Samples.
Local Open Scope list_scope.

Section Inv.
Variable kind : nat -> pass_kind.

Definition inv (s : sys) : Prop :=
  (isRunning s = true <-> exists i, in_flight (phase_of s i)) /\
  (forall i j, in_flight (phase_of s i) -> in_flight (phase_of s j) -> i = j) /\
  (forall i, (phase_of s i = Idle \/ exists r, phase_of s i = Rejected r) ->
             forall o, ~ In (i, o) (trace s)) /\
  (forall i r, phase_of s i = Rejected r -> r = noop_result (kind i)).

Lemma inv_init : inv init.
Proof.
  unfold inv, init; cbn. split; [split; [discriminate | intros [i []]]|].
  split; [intros i j []|]. split; [intros i _ o []|]. intros i r H; discriminate.
Qed.

Lemma upd_same f i p : upd f i p i = p.
Proof. unfold upd. rewrite Nat.eqb_refl. reflexivity. Qed.

Lemma upd_other f i j p : j <> i -> upd f i p j = f j.
Proof. intros H. unfold upd. destruct (Nat.eqb_spec j i); congruence. Qed.

Ltac upd_cases j i H :=
  destruct (Nat.eq_dec j i) as [->|?];
    [rewrite upd_same in H | rewrite upd_other in H by assumption].

Lemma in_flight_upd_out f i p j :
  ~ in_flight p -> in_flight (upd f i p j) -> j <> i /\ in_flight (f j).
Proof.
  intros Hp Hj. destruct (Nat.eq_dec j i) as [->|Hji].
  - rewrite upd_same in Hj. contradiction.
  - rewrite upd_other in Hj by exact Hji. split; assumption.
Qed.

Lemma in_flight_upd_keep f i p j :
  in_flight p -> in_flight (f i) -> (in_flight (upd f i p j) <-> in_flight (f j)).
Proof.
  intros Hp Hi. destruct (Nat.eq_dec j i) as [->|Hji].
  - rewrite upd_same. tauto.
  - rewrite upd_other by exact Hji. tauto.
Qed.

Lemma inv_step s s' i : inv s -> step_thread kind s i = Some s' -> inv s'.
Proof.
  intros (Hrun & Huniq & Hidle & Hrej) Hs. unfold step_thread in Hs.
  destruct (phase_of s i) as [|[|o rest] f|r|r] eqn:Hp; try discriminate.
  - destruct (isRunning s) eqn:Hr; injection Hs as <-; unfold inv; cbn.
    + (* turned away: the flag stays set, nothing is issued *)
      split; [split|].
      { intros _. destruct (proj1 Hrun eq_refl) as [m Hm].
        exists m. destruct (Nat.eq_dec m i) as [->|Hmi]; [rewrite Hp in Hm; destruct Hm|].
        rewrite upd_other by exact Hmi. exact Hm. }
      { intros _. reflexivity. }
      split.
      { intros j k Hj Hk.
        apply in_flight_upd_out in Hj; [|intros []]. apply in_flight_upd_out in Hk; [|intros []].
        apply Huniq; tauto. }
      split.
      * intros j Hj o. upd_cases j i Hj; [apply Hidle; left; exact Hp|].
        apply Hidle. exact Hj.
      * intros j r Hj. upd_cases j i Hj; [injection Hj as <-; reflexivity|]. apply Hrej. exact Hj.
    + (* admitted: the flag is set *)
      assert (Hnone : forall m, ~ in_flight (phase_of s m)).
      { intros m Hm. assert (Hft : false = true) by (apply Hrun; exists m; exact Hm).
        discriminate Hft. }
      split; [split; [intros _; exists i; rewrite upd_same; exact I | intros _; reflexivity] |].
      split.
      * intros j k Hj Hk.
        destruct (Nat.eq_dec j i) as [->|Hji]; destruct (Nat.eq_dec k i) as [->|Hki]; auto.
        -- rewrite upd_other in Hk by assumption. exfalso. exact (Hnone k Hk).
        -- rewrite upd_other in Hj by assumption. exfalso. exact (Hnone j Hj).
        -- rewrite upd_other in Hj by assumption. exfalso. exact (Hnone j Hj).
      * split.
        -- intros j Hj o. upd_cases j i Hj; [destruct Hj as [Hj|[r Hj]]; discriminate|].
           apply Hidle. exact Hj.
        -- intros j r Hj. upd_cases j i Hj; [discriminate|]. apply Hrej. exact Hj.
  - (* finally: the flag is cleared *)
    injection Hs as <-. unfold inv; cbn.
    assert (Honly : forall m, in_flight (phase_of s m) -> m = i).
    { intros m Hm. apply Huniq; [exact Hm | rewrite Hp; exact I]. }
    split; [split; [discriminate|] |].
    { intros [m Hm]. apply in_flight_upd_out in Hm; [|intros []].
      destruct Hm as [Hmi Hm]. apply Honly in Hm. contradiction. }
    split.
    { intros j k Hj Hk.
      apply in_flight_upd_out in Hj; [|intros []]. apply in_flight_upd_out in Hk; [|intros []].
      apply Huniq; tauto. }
    split.
    * intros j Hj o. upd_cases j i Hj; [destruct Hj as [Hj|[r Hj]]; discriminate|].
      apply Hidle. exact Hj.
    * intros j r Hj. upd_cases j i Hj; [discriminate|]. apply Hrej. exact Hj.
  - (* one awaited store operation *)
    injection Hs as <-. unfold inv; cbn.
    assert (Hi : in_flight (phase_of s i)) by (rewrite Hp; exact I).
    assert (Hk : forall j, in_flight (upd (phase_of s) i (InFlight rest f) j)
                           <-> in_flight (phase_of s j))
      by (intros j; apply in_flight_upd_keep; [exact I | exact Hi]).
    split; [rewrite Hrun; split; intros [m Hm]; exists m; apply Hk; exact Hm |].
    split; [intros j k Hj Hk'; apply Huniq; apply Hk; assumption |].
    split.
    * intros j Hj o' Hin. apply in_app_or in Hin. destruct Hin as [Hin|[Heq|[]]].
      -- upd_cases j i Hj; [destruct Hj as [Hj|[r Hj]]; discriminate|].
         exact (Hidle j Hj o' Hin).
      -- injection Heq as -> ->. rewrite upd_same in Hj.
         destruct Hj as [Hj|[r Hj]]; discriminate.
    * intros j r Hj. upd_cases j i Hj; [discriminate|]. apply Hrej. exact Hj.
Qed.

Lemma reachable_inv s : reachable kind s -> inv s.
Proof.
  induction 1 as [|s s' i _ IH Hs]; [apply inv_init | exact (inv_step s s' i IH Hs)].
Qed.

Lemma run_reachable sched : forall s, reachable kind s -> reachable kind (run kind s sched).
Proof.
  induction sched as [|i sched IH]; intros s Hs; [exact Hs|].
  simpl. destruct (step_thread kind s i) as [s'|] eqn:E; apply IH; [|exact Hs].
  exact (reach_step kind s s' i Hs E).
Qed.
End Inv.

(** C4: on one task runner, in every state reachable by interleaving the
    atomic steps of any passes (full, full with client, smart): at most one
    pass is in flight and [isRunning] is set exactly while one is, so it is
    cleared once the pass in flight has ended, normally or with an error; a
    pass triggered while another is in flight is turned away at once, its
    result is the no-op one ([undefined] for a full pass, [{none, 0}] for a
    smart pass) and no store operation of it is ever issued. *)
Theorem guard_single_pass (kind : nat -> pass_kind) (s : sys) :
  reachable kind s ->
  (isRunning s = false <-> forall i, ~ in_flight (phase_of s i)) /\
  (forall i j, in_flight (phase_of s i) -> in_flight (phase_of s j) -> i = j) /\
  (forall i f s', phase_of s i = InFlight [] f -> step_thread kind s i = Some s' ->
     isRunning s' = false /\ phase_of s' i = Done f) /\
  (forall i j s', in_flight (phase_of s j) -> phase_of s i = Idle ->
     step_thread kind s i = Some s' ->
     phase_of s' i = Rejected (noop_result (kind i)) /\ trace s' = trace s) /\
  (forall i r, phase_of s i = Rejected r ->
     r = noop_result (kind i) /\ forall o, ~ In (i, o) (trace s)).
Proof.
  intros Hreach. destruct (reachable_inv kind s Hreach) as (Hrun & Huniq & Hidle & Hrej).
  split.
  { split.
    - intros Hf i Hi. assert (isRunning s = true) by (apply Hrun; exists i; exact Hi). congruence.
    - intros Hn. destruct (isRunning s) eqn:E; [|reflexivity].
      destruct (proj1 Hrun eq_refl) as [i Hi]. exfalso. exact (Hn i Hi). }
  split; [exact Huniq|]. split.
  { intros i f s' Hp Hs. unfold step_thread in Hs. rewrite Hp in Hs.
    injection Hs as <-. cbn. rewrite upd_same. split; reflexivity. }
  split.
  { intros i j s' Hj Hi Hs. unfold step_thread in Hs. rewrite Hi in Hs.
    assert (Ht : isRunning s = true) by (apply Hrun; exists j; exact Hj).
    rewrite Ht in Hs. injection Hs as <-. cbn. rewrite upd_same. split; reflexivity. }
  intros i r Hi. split; [exact (Hrej i r Hi)|]. apply Hidle. right. exists r. exact Hi.
Qed.

Lemma guard_single_pass_witness :
  let s := run two_passes init [0; 0; 1; 0]%nat in
  (isRunning s = false <-> forall i, ~ in_flight (phase_of s i)) /\
  (forall i j, in_flight (phase_of s i) -> in_flight (phase_of s j) -> i = j) /\
  (forall i f s', phase_of s i = InFlight [] f -> step_thread two_passes s i = Some s' ->
     isRunning s' = false /\ phase_of s' i = Done f) /\
  (forall i j s', in_flight (phase_of s j) -> phase_of s i = Idle ->
     step_thread two_passes s i = Some s' ->
     phase_of s' i = Rejected (noop_result (two_passes i)) /\ trace s' = trace s) /\
  (forall i r, phase_of s i = Rejected r ->
     r = noop_result (two_passes i) /\ forall o, ~ In (i, o) (trace s)).
Proof.
  apply guard_single_pass. apply run_reachable. apply reach_init.
Defined.

End GuardFacts.

Module ParserFacts.
Import Runner Parser.
Local Open Scope list_scope.

Lemma map_get_set {V} (m : js_map V) (k k' : string) (v : V) :
  map_get (map_set m k v) k' = if String.eqb k' k then Some v else map_get m k'.
Proof.
  induction m as [| [k0 v0] rest IH]; cbn.
  - reflexivity.
  - destruct (String.eqb k k0) eqn:E.
    + apply String.eqb_eq in E; subst k0. cbn.
      destruct (String.eqb k' k); reflexivity.
    + cbn. destruct (String.eqb k' k0) eqn:E'.
      * apply String.eqb_eq in E'; subst k0.
        destruct (String.eqb k' k) eqn:E''; [|reflexivity].
        apply String.eqb_eq in E''; subst k. rewrite String.eqb_refl in E.
        discriminate.
      * exact IH.
Qed.

(** The loop of [extractDetectionStrategies] and [extractAnalytics]: every
    entry of the resulting map is the conversion of a bundle object that
    passed the loop's test. *)
Lemma fold_set_entries {V} (keep : stix_object -> bool) (conv : stix_object -> V)
    (objs : list stix_object) :
  forall (acc : js_map V) k v,
    map_get
      (fold_left (fun m obj => if keep obj then map_set m (id obj) (conv obj) else m)
         objs acc) k = Some v ->
    map_get acc k = Some v \/
    exists obj, In obj objs /\ keep obj = true /\ v = conv obj.
Proof.
  induction objs as [| o rest IH]; cbn; intros acc k v H.
  - left; exact H.
  - destruct (IH _ _ _ H) as [Hacc | (obj & Hin & Hk & Hv)].
    + destruct (keep o) eqn:Ko.
      * rewrite map_get_set in Hacc.
        destruct (String.eqb k (id o)).
        -- right. exists o. split; [left; reflexivity|]. split; [exact Ko|].
           congruence.
        -- left; exact Hacc.
      * left; exact Hacc.
    + right. exists obj. split; [right; exact Hin|]. split; assumption.
Qed.

(** What the extraction does filter: a kept analytic or detection strategy
    is of its type, not deprecated, named and referenced; a kept attack
    pattern is, besides, not revoked. *)
Lemma extractAnalytics_entries objs k v :
  map_get (extractAnalytics objs) k = Some v ->
  exists obj, In obj objs /\ v = to_analytic obj /\
    type_ obj = "x-mitre-analytic" /\
    truthy_bool (x_mitre_deprecated obj) = false /\
    Js.truthy_str (name obj) = true /\
    truthy_array (external_references obj) = true.
Proof.
  intro H. destruct (fold_set_entries keep_analytic to_analytic objs [] k v H)
    as [Hnil | (obj & Hin & Hk & Hv)]; [discriminate Hnil|].
  exists obj. unfold keep_analytic in Hk.
  apply andb_prop in Hk as [Hk Hr]. apply andb_prop in Hk as [Hk Hn].
  apply andb_prop in Hk as [Ht Hd]. apply String.eqb_eq in Ht.
  apply negb_true_iff in Hd. repeat split; assumption.
Qed.

Lemma extractDetectionStrategies_entries objs k v :
  map_get (extractDetectionStrategies objs) k = Some v ->
  exists obj, In obj objs /\ v = to_detection_strategy obj /\
    type_ obj = "x-mitre-detection-strategy" /\
    truthy_bool (x_mitre_deprecated obj) = false /\
    Js.truthy_str (name obj) = true /\
    truthy_array (external_references obj) = true.
Proof.
  intro H. destruct (fold_set_entries keep_detection_strategy to_detection_strategy
                       objs [] k v H) as [Hnil | (obj & Hin & Hk & Hv)];
    [discriminate Hnil|].
  exists obj. unfold keep_detection_strategy in Hk.
  apply andb_prop in Hk as [Hk Hr]. apply andb_prop in Hk as [Hk Hn].
  apply andb_prop in Hk as [Ht Hd]. apply String.eqb_eq in Ht.
  apply negb_true_iff in Hd. repeat split; assumption.
Qed.

Lemma extractAttackPatterns_sources objs ap :
  In ap (extractAttackPatterns objs) ->
  exists obj, In obj objs /\ ap = to_attack_pattern obj /\
    type_ obj = "attack-pattern" /\
    truthy_bool (x_mitre_deprecated obj) = false /\
    truthy_bool (revoked obj) = false /\
    Js.truthy_str (name obj) = true /\
    truthy_array (external_references obj) = true.
Proof.
  unfold extractAttackPatterns. intro H. apply in_map_iff in H as (obj & Hap & Hin).
  apply filter_In in Hin as [Hin Hk]. exists obj.
  unfold keep_attack_pattern in Hk.
  apply andb_prop in Hk as [Hk Hr]. apply andb_prop in Hk as [Hk Hn].
  apply andb_prop in Hk as [Hk Hv]. apply andb_prop in Hk as [Ht Hd].
  apply String.eqb_eq in Ht. apply negb_true_iff in Hd.
  apply negb_true_iff in Hv. repeat split; auto.
Qed.

(** C6 (refuted for [revoked]).  A bundle object marked revoked but not
    deprecated, with a name and external references, is dropped when it is
    an attack pattern, but kept, under its id, in the analytics map when it
    is an analytic and in the detection-strategy map when it is a detection
    strategy: [extractAnalytics] and [extractDetectionStrategies] never test
    [revoked]. *)
Theorem revoked_objects_kept (obj : stix_object)
    (Hrev : revoked obj = Some true)
    (Hdep : truthy_bool (x_mitre_deprecated obj) = false)
    (Hname : Js.truthy_str (name obj) = true)
    (Hrefs : truthy_array (external_references obj) = true) :
  (type_ obj = "attack-pattern" -> extractAttackPatterns [obj] = []) /\
  (type_ obj = "x-mitre-analytic" ->
     map_get (extractAnalytics [obj]) (id obj) = Some (to_analytic obj)) /\
  (type_ obj = "x-mitre-detection-strategy" ->
     map_get (extractDetectionStrategies [obj]) (id obj)
     = Some (to_detection_strategy obj)).
Proof.
  split; [|split]; intro Ht.
  - unfold extractAttackPatterns, keep_attack_pattern. cbn [filter].
    rewrite Ht, Hdep, Hrev, Hname, Hrefs. reflexivity.
  - unfold extractAnalytics, keep_analytic. cbn [fold_left].
    rewrite Ht, Hdep, Hname, Hrefs. cbn. rewrite String.eqb_refl. reflexivity.
  - unfold extractDetectionStrategies, keep_detection_strategy. cbn [fold_left].
    rewrite Ht, Hdep, Hname, Hrefs. cbn. rewrite String.eqb_refl. reflexivity.
Qed.

Lemma revoked_objects_kept_witness :
  revoked revoked_analytic_object = Some true /\
  map_get (extractAnalytics [revoked_analytic_object]) (id revoked_analytic_object)
  = Some (to_analytic revoked_analytic_object).
Proof.
  split; [reflexivity|].
  apply (revoked_objects_kept revoked_analytic_object);
    reflexivity.
Defined.

(** Once the file is loaded to a truthy value, [parseMatrix] is the
    unguarded build on [stixData.objects], or throws when that is not an
    array. *)
Lemma parse_matrix_after_load build v :
  json_truthy v = true ->
  parseMatrix build (FileText (Some v)) =
  match json_member v "objects" with
  | Some (JsonArray objects) => build objects
  | _ => Thrown
  end.
Proof. intro Hv. unfold parseMatrix. cbn. rewrite Hv. reflexivity. Qed.

(** C7 (amended).  When the data file is missing, unreadable, not JSON, or
    parses to a falsy value such as [null], [parseMatrix] returns (whatever
    the later build would do) the matrix of the 14 tactics of
    [MITRE_TACTICS_ORDER] in canonical order, each with no technique, and
    no platform. *)
Theorem parse_matrix_load_failure (build : list json -> res mitre_matrix_data)
    (f : stix_file)
    (Hfail : f = FileMissing \/ f = FileUnreadable \/ f = FileText None \/
             exists v, f = FileText (Some v) /\ json_truthy v = false) :
  exists m, parseMatrix build f = Ok m /\
    map tactic (tactics m) = MITRE_TACTICS_ORDER /\
    map (fun t => shortName (tactic t)) (tactics m) = canonical_short_names /\
    Forall (fun t => techniques t = []) (tactics m) /\
    availablePlatforms m = [].
Proof.
  exists empty_matrix. split.
  - destruct Hfail as [-> | [-> | [-> | (v & -> & Hv)]]]; try reflexivity.
    unfold parseMatrix. cbn. rewrite Hv. reflexivity.
  - split; [reflexivity|]. split; [reflexivity|]. split; [|reflexivity].
    unfold empty_matrix, getEmptyTactics. cbn [tactics].
    apply Forall_forall. intros t Ht. apply in_map_iff in Ht as (x & <- & _).
    reflexivity.
Qed.

Lemma parse_matrix_load_failure_witness :
  FileText (Some JsonNull) = FileText (Some JsonNull) /\
  exists m, parseMatrix (fun _ => Thrown) (FileText (Some JsonNull)) = Ok m /\
    map tactic (tactics m) = MITRE_TACTICS_ORDER /\
    map (fun t => shortName (tactic t)) (tactics m) = canonical_short_names /\
    Forall (fun t => techniques t = []) (tactics m) /\
    availablePlatforms m = [].
Proof.
  split; [reflexivity|].
  apply (parse_matrix_load_failure (fun _ => Thrown) (FileText (Some JsonNull))).
  right; right; right. exists JsonNull. split; reflexivity.
Defined.

(** C7 counterexample: a data file holding the JSON text [{}] is read and
    parsed without error, and [parseMatrix] throws (the [TypeError] of
    [stixData.objects.filter]) instead of returning the empty matrix. *)
Lemma parse_matrix_empty_object_throws :
  parseMatrix (fun _ => Ok empty_matrix) (FileText (Some (JsonObject []))) = Thrown.
Proof. reflexivity. Qed.

End ParserFacts.

Module ScoringExtraFacts.
Import Scoring Settings Views ScoringFacts.
Local Open Scope list_scope.

Lemma assoc_in (l : list (string * Q)) (k : string) (q : Q) :
  assoc l k = Some q -> In (k, q) l.
Proof.
  induction l as [|[k' q'] rest IH]; cbn; [discriminate|].
  destruct (String.eqb k k') eqn:E.
  - intros H. injection H as <-. apply String.eqb_eq in E. subst. left; reflexivity.
  - intros H. right. exact (IH H).
Qed.

Lemma fold_left_Qplus (l : list Q) : forall a,
  fold_left Qplus l a == a + fold_right Qplus 0 l.
Proof.
  induction l as [|x l IH]; intros a; cbn.
  - lra.
  - rewrite IH. lra.
Qed.

Lemma sum_bounds (l : list Q) :
  (forall v, In v l -> 0 <= v <= 5) ->
  0 <= fold_right Qplus 0 l /\
  fold_right Qplus 0 l <= 5 * inject_Z (Z.of_nat (length l)).
Proof.
  induction l as [|x l IH]; intros H; cbn [fold_right length].
  - change (inject_Z (Z.of_nat 0)) with 0. lra.
  - assert (Hx : 0 <= x <= 5) by (apply H; left; reflexivity).
    destruct IH as [IH1 IH2]; [intros v Hv; apply H; right; exact Hv|].
    rewrite Nat2Z.inj_succ, <- Z.add_1_r, inject_Z_plus.
    change (inject_Z 1) with 1. lra.
Qed.

Lemma mean_round_bounds (l : list Q) :
  l <> [] -> (forall v, In v l -> 0 <= v <= 5) ->
  0 <= round_q (sumQ l / inject_Z (Z.of_nat (length l)) * 10) / 10 /\
  round_q (sumQ l / inject_Z (Z.of_nat (length l)) * 10) / 10 <= 5.
Proof.
  intros Hne H.
  set (n := inject_Z (Z.of_nat (length l))).
  assert (Hn : 0 < n).
  { unfold n. destruct l as [|x l]; [congruence|]. cbn [length].
    rewrite Nat2Z.inj_succ, <- Z.add_1_r, inject_Z_plus. change (inject_Z 1) with 1.
    assert (0 <= inject_Z (Z.of_nat (length l))).
    { change 0 with (inject_Z 0). rewrite <- Zle_Qle. lia. }
    lra. }
  destruct (sum_bounds l H) as [H1 H2]. fold n in H2.
  assert (Hs : sumQ l == fold_right Qplus 0 l)
    by (unfold sumQ; rewrite fold_left_Qplus; lra).
  assert (Hm0 : 0 <= sumQ l / n) by (apply Qle_shift_div_l; [exact Hn | lra]).
  assert (Hm5 : sumQ l / n <= 5) by (apply Qle_shift_div_r; [exact Hn | lra]).
  destruct (round_q_bounds 0 50 (sumQ l / n * 10)) as [R1 R2].
  - change (inject_Z 0) with 0. lra.
  - change (inject_Z 50) with 50. lra.
  - change (inject_Z 0) with 0 in R1. change (inject_Z 50) with 50 in R2.
    split.
    + apply Qle_shift_div_l; lra.
    + apply Qle_shift_div_r; lra.
Qed.

(** [getRetentionScoreForPlatform] and [getDeviceCompletenessScoreForPlatform]
    stay in [0,5]: with every configured value and the default in [0,5], and a
    platform that is not a property name of [Object.prototype], the score is a
    number in [0,5] (the platform's value, the default, or the mean rounded to
    one decimal). *)
Theorem platform_score_in_range (settings : list (string * Q)) (default : Q)
        (platform : option string) :
  settings_in_range settings -> 0 <= default <= 5 ->
  (forall p, platform = Some p -> is_proto_key p = false) ->
  exists q, scoreForPlatform settings default platform = VNum q /\ 0 <= q <= 5.
Proof.
  intros Hset Hdef Hp. unfold scoreForPlatform.
  destruct (truthy_str platform) eqn:Ht.
  - destruct platform as [p|]; [|discriminate].
    unfold record_get. destruct (assoc settings p) as [q|] eqn:Ha.
    + exists q. split; [reflexivity|]. exact (Hset p q (assoc_in _ _ _ Ha)).
    + rewrite (Hp p eq_refl). exists default. split; [reflexivity | exact Hdef].
  - destruct (map snd settings) as [|x xs] eqn:Hm.
    + exists default. split; [reflexivity | exact Hdef].
    + rewrite <- Hm. eexists. split; [reflexivity|].
      apply mean_round_bounds; [rewrite Hm; discriminate|].
      intros v Hv. apply in_map_iff in Hv as [[k v'] [Hv Hin]]. cbn in Hv. subst v'.
      exact (Hset k v Hin).
Qed.

Lemma platform_score_in_range_witness :
  exists q, scoreForPlatform [("Windows", 4); ("Linux", 3)] 5 None = VNum q /\ 0 <= q <= 5.
Proof.
  apply platform_score_in_range.
  - intros k v H. cbn in H.
    destruct H as [H|[H|[]]]; injection H as <- <-; split; discriminate.
  - split; discriminate.
  - intros p H; discriminate.
Defined.

Lemma Qltb_iff (x y : Q) : Qltb x y = true <-> x < y.
Proof.
  unfold Qltb. rewrite negb_true_iff. split.
  - intros H. apply Qnot_le_lt. intros Hle. apply Qle_bool_iff in Hle. congruence.
  - intros H. destruct (Qle_bool y x) eqn:E; [|reflexivity].
    apply Qle_bool_iff in E. exfalso. apply (Qlt_not_le x y H E).
Qed.

Lemma Qltb_false (x y : Q) : Qltb x y = false <-> y <= x.
Proof.
  unfold Qltb. rewrite negb_false_iff. apply Qle_bool_iff.
Qed.

Lemma multiplier_cases (table : list (string * Q)) (k : string) :
  is_proto_key k = false ->
  nullish (record_get table k) (VNum 0) = VNum 0 \/
  exists q, nullish (record_get table k) (VNum 0) = VNum q /\ In (k, q) table.
Proof.
  intros Hk. unfold record_get. destruct (assoc table k) as [q|] eqn:Ha.
  - right. exists q. split; [reflexivity | exact (assoc_in _ _ _ Ha)].
  - left. rewrite Hk. reflexivity.
Qed.

Lemma status_multiplier_range (status : string) :
  is_proto_key status = false ->
  exists s, nullish (record_get statusMultipliers status) (VNum 0) = VNum s /\
            (s = 0 \/ s = 1 # 2 \/ s = 1).
Proof.
  intros H. destruct (multiplier_cases statusMultipliers status H) as [E | [q [E Hin]]].
  - exists 0. split; [exact E | left; reflexivity].
  - exists q. split; [exact E|]. cbn in Hin.
    destruct Hin as [Hq|[Hq|[Hq|[]]]]; inversion Hq; subst; auto.
Qed.

Lemma confidence_multiplier_range (confidence : string) :
  is_proto_key confidence = false ->
  exists c, nullish (record_get confidenceMultipliers confidence) (VNum 0) = VNum c /\
            (c = 0 \/ c = 2 # 5 \/ c = 4 # 5 \/ c = 1).
Proof.
  intros H. destruct (multiplier_cases confidenceMultipliers confidence H) as [E | [q [E Hin]]].
  - exists 0. split; [exact E | left; reflexivity].
  - exists q. split; [exact E|]. cbn in Hin.
    destruct Hin as [Hq|[Hq|[Hq|[Hq|[]]]]]; inversion Hq; subst; auto.
Qed.

Lemma completeness_in_range store status confidence nf nv cf cv :
  is_proto_key status = false -> is_proto_key confidence = false ->
  exists c, cr_score (calculateDataFieldCompletenessScore store status confidence nf nv cf cv)
            = VNum c /\ 0 <= c <= 5.
Proof.
  intros Hs Hc. unfold calculateDataFieldCompletenessScore.
  destruct (String.eqb status "unmapped").
  { exists 0. split; [reflexivity | split; discriminate]. }
  destruct (status_multiplier_range status Hs) as [sm [Esm Hsm]].
  destruct (confidence_multiplier_range confidence Hc) as [cm [Ecm Hcm]].
  rewrite Esm, Ecm.
  destruct (queryFieldExists store nf nv cf cv) as [[ex ld] q].
  cbn [exists_]. eexists. split; [reflexivity|].
  destruct ex;
    destruct Hsm as [-> | [-> | ->]]; destruct Hcm as [-> | [-> | [-> | ->]]];
    vm_compute; split; discriminate.
Qed.

Lemma timeliness_values (ld : option Probe.doc) :
  exists t, calculateTimelinessScore ld = VNum t /\ (t = 0 \/ t = 1 \/ t = 3 \/ t = 5).
Proof.
  unfold calculateTimelinessScore.
  destruct ld as [[ts ing]|]; [|exists 0; auto].
  cbn [d_ingested d_timestamp].
  destruct ing; destruct ts; try (exists 0; split; [reflexivity | auto]; fail).
  repeat match goal with |- context [if ?b then _ else _] => destruct b end;
    eexists; (split; [reflexivity | auto]).
Qed.

Lemma quality_round_bounds (c t k d e : Q) :
  Forall (fun x => 0 <= x <= 5) [c; t; k; d; e] ->
  0 <= round_q ((c + t + k + d + e) / 5 * 10) / 10 <= 5.
Proof.
  intros Hall. rewrite !Forall_cons_iff in Hall.
  destruct Hall as (F1 & F2 & F3 & F4 & F5 & _).
  destruct F1, F2, F3, F4, F5.
  assert (X : (c + t + k + d + e) / 5 * 10 == (c + t + k + d + e) * 2) by field.
  destruct (round_q_bounds 0 50 ((c + t + k + d + e) / 5 * 10)) as [R1 R2].
  - change (inject_Z 0) with 0. lra.
  - change (inject_Z 50) with 50. lra.
  - change (inject_Z 0) with 0 in R1. change (inject_Z 50) with 50 in R2.
    split; [apply Qle_shift_div_l | apply Qle_shift_div_r]; lra.
Qed.

(** The scores of a log-source reference stay in [0,5] when no lookup goes
    through [Object.prototype]: for a status, a confidence and a platform
    that are not property names of [Object.prototype], and configured
    device-completeness and retention values in [0,5], each of the five
    dimension scores is a number in [0,5], and [quality_score] is their mean
    rounded to one decimal, also in [0,5]. *)
Theorem scores_in_range (svc : service) (store : log_store) (now : Z) (r : Q)
        (ref : log_source_reference) (platform : option string) :
  is_proto_key (status ref) = false -> is_proto_key (confidence ref) = false ->
  settings_in_range (deviceCompletenessSettings svc) ->
  settings_in_range (retentionSettings svc) ->
  (forall p, platform = Some p -> is_proto_key p = false) ->
  let s := fst (calculateScoresForLogSource svc store now r ref platform) in
  exists c t k d e,
    data_field_completeness s = VNum c /\ timeliness s = VNum t /\
    consistency s = VNum k /\ device_completeness s = VNum d /\ retention s = VNum e /\
    Forall (fun x => 0 <= x <= 5) [c; t; k; d; e] /\
    quality_score s = VNum (round_q ((c + t + k + d + e) / 5 * 10) / 10) /\
    0 <= round_q ((c + t + k + d + e) / 5 * 10) / 10 <= 5.
Proof.
  intros Hs Hc Hdev Hret Hp s. subst s.
  unfold calculateScoresForLogSource. cbn zeta. cbn [fst].
  set (cr := calculateDataFieldCompletenessScore _ _ _ _ _ _ _).
  destruct (completeness_in_range store (status ref) (confidence ref)
              (name_field (ecs ref)) (name_value (ecs ref))
              (if String.eqb (status ref) "complete" then Some (channel_field (ecs ref)) else None)
              (if String.eqb (status ref) "complete" then Some (channel_value (ecs ref)) else None)
              Hs Hc) as [c [Ec Hc5]].
  fold cr in Ec.
  destruct (timeliness_values (cr_lastDoc cr)) as [t [Et Ht]].
  destruct (platform_score_in_range _ DEFAULT_DEVICE_COMPLETENESS_SCORE platform Hdev
              ltac:(split; discriminate) Hp) as [dq [Ed Hd5]].
  destruct (platform_score_in_range _ DEFAULT_RETENTION_SCORE platform Hret
              ltac:(split; discriminate) Hp) as [rq [Er Hr5]].
  set (fe := Qltb 0 (base_score (cr_details cr))).
  exists c, t, (if fe then 5 else 0), (if fe then dq else 0), (if fe then rq else 0).
  cbn [data_field_completeness timeliness consistency device_completeness retention
       quality_score].
  rewrite Ec, Et.
  unfold calculateConsistencyScore, calculateDeviceCompletenessScore, calculateRetentionScore.
  rewrite Ed, Er.
  assert (Ht5 : 0 <= t <= 5) by (destruct Ht as [ -> | [ -> | [ -> | -> ]]]; split; discriminate).
  assert (Hall : Forall (fun x => 0 <= x <= 5)
                   [c; t; if fe then 5 else 0; if fe then dq else 0; if fe then rq else 0]).
  { destruct fe; repeat constructor; try apply Hc5; try apply Ht5; try apply Hd5;
      try apply Hr5; discriminate. }
  split; [destruct fe; reflexivity|]. split; [reflexivity|].
  split; [destruct fe; reflexivity|]. split; [destruct fe; reflexivity|].
  split; [destruct fe; reflexivity|]. split; [exact Hall|].
  split; [destruct fe; reflexivity|].
  apply quality_round_bounds; exact Hall.
Qed.

Lemma scores_in_range_witness :
  let s := fst (calculateScoresForLogSource (new_service None [] [("Windows", 4)])
                  (fun _ => Some None) 0 0 Samples.sample_ref (Some "Windows")) in
  exists c t k d e,
    data_field_completeness s = VNum c /\ timeliness s = VNum t /\
    consistency s = VNum k /\ device_completeness s = VNum d /\ retention s = VNum e /\
    Forall (fun x => 0 <= x <= 5) [c; t; k; d; e] /\
    quality_score s = VNum (round_q ((c + t + k + d + e) / 5 * 10) / 10) /\
    0 <= round_q ((c + t + k + d + e) / 5 * 10) / 10 <= 5.
Proof.
  apply scores_in_range.
  - reflexivity.
  - reflexivity.
  - intros k v [].
  - intros k v [H|[]]. injection H as <- <-. split; discriminate.
  - intros p H. injection H as <-. reflexivity.
Defined.

Ltac qltb_facts :=
  repeat match goal with
  | H : Qltb _ _ = true |- _ => apply Qltb_iff in H
  | H : Qltb _ _ = false |- _ => apply Qltb_false in H
  end.

(** [calculateTimelinessScore] never rewards a longer ingestion delay: for
    the same [@timestamp], a later [event.ingested] gives a score no higher
    (5, 3, 1, 0 by bands of 5, 15 and 60 minutes; a negative delay counts as
    under 5 minutes). *)
Theorem timeliness_monotone (ts ing1 ing2 : Z) :
  (ing1 <= ing2)%Z ->
  exists a b,
    calculateTimelinessScore (Some (Probe.mkDoc (Probe.FDate ts) (Probe.FDate ing1))) = VNum a /\
    calculateTimelinessScore (Some (Probe.mkDoc (Probe.FDate ts) (Probe.FDate ing2))) = VNum b /\
    b <= a.
Proof.
  intros Hle. unfold calculateTimelinessScore. cbn [Probe.d_ingested Probe.d_timestamp].
  assert (Hd : inject_Z (ing1 - ts) <= inject_Z (ing2 - ts)) by (rewrite <- Zle_Qle; lia).
  set (x1 := inject_Z (ing1 - ts)) in *. set (x2 := inject_Z (ing2 - ts)) in *.
  clearbody x1 x2.
  assert (Hq : x1 / 60000 <= x2 / 60000) by (apply Qmult_le_compat_r; [exact Hd | discriminate]).
  set (d1 := x1 / 60000) in *. set (d2 := x2 / 60000) in *. clearbody d1 d2.
  destruct (Qltb d1 5) eqn:A1; destruct (Qltb d1 15) eqn:A2; destruct (Qltb d1 60) eqn:A3;
  destruct (Qltb d2 5) eqn:B1; destruct (Qltb d2 15) eqn:B2; destruct (Qltb d2 60) eqn:B3;
  qltb_facts; eexists; eexists; (split; [reflexivity|]); (split; [reflexivity|]);
  try (vm_compute; discriminate); lra.
Qed.

Lemma timeliness_monotone_witness :
  exists a b,
    calculateTimelinessScore (Some (Probe.mkDoc (Probe.FDate 0) (Probe.FDate 240000))) = VNum a /\
    calculateTimelinessScore (Some (Probe.mkDoc (Probe.FDate 0) (Probe.FDate 600000))) = VNum b /\
    b <= a.
Proof. apply timeliness_monotone. lia. Defined.

(** A positive timeliness score needs a last document whose [event.ingested]
    and [@timestamp] both parse, ingested less than one hour after the
    timestamp; a missing, empty or unparsable date gives 0. *)
Theorem timeliness_positive (ld : option Probe.doc) (q : Q) :
  calculateTimelinessScore ld = VNum q -> 0 < q ->
  exists ts ing, ld = Some (Probe.mkDoc (Probe.FDate ts) (Probe.FDate ing)) /\
                 (ing - ts < 3600000)%Z.
Proof.
  intros Hq Hpos. unfold calculateTimelinessScore in Hq.
  destruct ld as [[ts ing]|];
    [|injection Hq as <-; exfalso; apply (Qlt_irrefl 0); exact Hpos].
  cbn [Probe.d_ingested Probe.d_timestamp] in Hq.
  destruct ing as [| |i|]; destruct ts as [| |t|];
    try (injection Hq as <-; exfalso; apply (Qlt_irrefl 0); exact Hpos).
  exists t, i. split; [reflexivity|].
  destruct (Qltb (inject_Z (i - t) / 60000) 60) eqn:E.
  - apply Qltb_iff in E.
    assert (H : inject_Z (i - t) < inject_Z 3600000).
    { assert (X : inject_Z (i - t) == inject_Z (i - t) / 60000 * 60000) by field.
      change (inject_Z 3600000) with 3600000. lra. }
    rewrite <- Zlt_Qlt in H. exact H.
  - apply Qltb_false in E.
    destruct (Qltb (inject_Z (i - t) / 60000) 5) eqn:E5;
      [apply Qltb_iff in E5; exfalso; lra|].
    destruct (Qltb (inject_Z (i - t) / 60000) 15) eqn:E15;
      [apply Qltb_iff in E15; exfalso; lra|].
    injection Hq as <-. exfalso; apply (Qlt_irrefl 0); exact Hpos.
Qed.

Lemma timeliness_positive_witness :
  exists ts ing,
    Some (Probe.mkDoc (Probe.FDate 0) (Probe.FDate 60000)) =
      Some (Probe.mkDoc (Probe.FDate ts) (Probe.FDate ing)) /\ (ing - ts < 3600000)%Z.
Proof.
  apply (timeliness_positive _ 5); [reflexivity | reflexivity].
Defined.

(** The settings caches: a fetch made within [CACHE_TTL_MS] (60 s) of the
    cache's timestamp returns the settings of the previous fetch and reads
    nothing from the store, whatever the store holds by then; this holds in
    particular for the empty settings cached after a store failure. *)
Theorem settings_cache_hit (c : settings_cache) (now done : Z) (st : settings_store)
        (v : list (string * Q)) (c1 : settings_cache) (read : bool)
        (now' done' : Z) (st' : settings_store) :
  fetchSettings c now done st = (v, c1, read) ->
  (now' - cacheTimestamp c1 < CACHE_TTL_MS)%Z ->
  fetchSettings c1 now' done' st' = (v, c1, false).
Proof.
  intros Hf H. unfold fetchSettings in Hf.
  destruct (Z.ltb (now - cacheTimestamp c) CACHE_TTL_MS) eqn:E.
  - injection Hf as <- <- _. unfold fetchSettings. rewrite (proj2 (Z.ltb_lt _ _) H).
    reflexivity.
  - destruct (settings_index_exists st) as [[|]|];
      [destruct (settings_doc st) as [[m|]|]| |];
      injection Hf as <- <- _; unfold fetchSettings in *;
      cbn [cacheTimestamp cache] in *; rewrite (proj2 (Z.ltb_lt _ _) H); reflexivity.
Qed.

Lemma settings_cache_hit_witness :
  fetchSettings initial_cache 100000 100050 no_settings_index
    = ([], mkCache [] 100050, true) /\
  (130000 - cacheTimestamp (mkCache [] 100050) < CACHE_TTL_MS)%Z /\
  fetchSettings (mkCache [] 100050) 130000 130010
    (mkSettingsStore (Some true) (Some (Some [("Windows", 3)])))
    = ([], mkCache [] 100050, false).
Proof.
  assert (H1 : fetchSettings initial_cache 100000 100050 no_settings_index
               = ([], mkCache [] 100050, true)) by reflexivity.
  assert (H2 : (130000 - cacheTimestamp (mkCache [] 100050) < CACHE_TTL_MS)%Z)
    by (vm_compute; reflexivity).
  split; [exact H1|]. split; [exact H2|].
  exact (settings_cache_hit _ _ _ _ _ _ _ _ _ _ H1 H2).
Defined.

(** When the settings index is missing or cannot be read, a fetch that
    reaches the store caches empty settings, and the retention and
    device-completeness scores are the defaults 5 and 2 for every platform
    that is not a property name of [Object.prototype]. *)
Theorem settings_unavailable_defaults (c : settings_cache) (now done : Z)
        (st : settings_store) (platform : option string) :
  (settings_index_exists st <> Some true \/ settings_doc st = None) ->
  (CACHE_TTL_MS <= now - cacheTimestamp c)%Z ->
  (forall p, platform = Some p -> is_proto_key p = false) ->
  getRetentionScoreForPlatform c now done st platform = (VNum 5, mkCache [] done) /\
  getDeviceCompletenessScoreForPlatform c now done st platform = (VNum 2, mkCache [] done).
Proof.
  intros Hst Httl Hp.
  assert (Hf : fetchSettings c now done st = ([], mkCache [] done, true)).
  { unfold fetchSettings. rewrite (proj2 (Z.ltb_ge _ _) Httl).
    destruct (settings_index_exists st) as [[|]|]; try reflexivity.
    destruct Hst as [Hst|Hst]; [congruence|]. rewrite Hst. reflexivity. }
  unfold getRetentionScoreForPlatform, getDeviceCompletenessScoreForPlatform.
  rewrite Hf. unfold scoreForPlatform.
  destruct platform as [p|]; cbn [truthy_str];
    [destruct (String.eqb p "") eqn:Ep; cbn [negb] |];
    try (split; reflexivity).
  unfold record_get. cbn [assoc]. rewrite (Hp p eq_refl). split; reflexivity.
Qed.

Lemma settings_unavailable_defaults_witness :
  getRetentionScoreForPlatform initial_cache 100000 100050 no_settings_index (Some "Windows")
    = (VNum 5, mkCache [] 100050) /\
  getDeviceCompletenessScoreForPlatform initial_cache 100000 100050 no_settings_index
    (Some "Windows") = (VNum 2, mkCache [] 100050).
Proof.
  apply settings_unavailable_defaults.
  - left. discriminate.
  - vm_compute. discriminate.
  - intros p H. injection H as <-. reflexivity.
Defined.

(** [invalidateSettingsCache] forces the next fetch (at any time at least
    60 s after the epoch) to read the settings index, and that fetch returns
    the [scores] of the settings document when there is one. *)
Theorem invalidate_forces_read (c : settings_cache) (now done : Z) (st : settings_store) :
  (CACHE_TTL_MS <= now)%Z ->
  snd (fetchSettings (invalidate c) now done st) = true /\
  (forall m, settings_index_exists st = Some true -> settings_doc st = Some (Some m) ->
     fst (fst (fetchSettings (invalidate c) now done st)) = m).
Proof.
  intros Hnow. unfold fetchSettings, invalidate. cbn [cacheTimestamp].
  rewrite Z.sub_0_r, (proj2 (Z.ltb_ge _ _) Hnow). split.
  - destruct (settings_index_exists st) as [[|]|]; try reflexivity.
    destruct (settings_doc st) as [[m|]|]; reflexivity.
  - intros m -> ->. reflexivity.
Qed.

Lemma invalidate_forces_read_witness :
  snd (fetchSettings (invalidate (mkCache [("Windows", 3)] 100000)) 100010 100020
         (mkSettingsStore (Some true) (Some (Some [("Windows", 1)])))) = true /\
  (forall m, Some true = Some true -> Some (Some [("Windows", 1)]) = Some (Some m) ->
     fst (fst (fetchSettings (invalidate (mkCache [("Windows", 3)] 100000)) 100010 100020
         (mkSettingsStore (Some true) (Some (Some [("Windows", 1)]))))) = m).
Proof. apply invalidate_forces_read. vm_compute. discriminate. Defined.

End ScoringExtraFacts.

Module RunnerExtraFacts.
Import Scoring Runner Views RunnerFacts.
Local Open Scope list_scope.

Lemma recomputed_app (a b : list op) : recomputed (a ++ b) = recomputed a ++ recomputed b.
Proof. unfold recomputed. apply flat_map_app. Qed.

Lemma writes_app (a b : list op) : writes (a ++ b) = writes a ++ writes b.
Proof. unfold writes. apply flat_map_app. Qed.

Lemma recomputed_process_hits ok hs :
  recomputed (process_hits ok hs) = analytic_ids_with_refs hs.
Proof.
  induction hs as [|h hs IH]; [reflexivity|].
  unfold process_hits, analytic_ids_with_refs in *. cbn [flat_map].
  rewrite recomputed_app, IH. f_equal.
  destruct h as [a|]; [|reflexivity]. unfold process_hit.
  destruct (a_refs a) as [[|]|]; try reflexivity.
  cbn. destruct (ok (a_id a)); reflexivity.
Qed.

Lemma writes_process_hits ok hs :
  writes (process_hits ok hs) = filter ok (recomputed (process_hits ok hs)).
Proof.
  induction hs as [|h hs IH]; [reflexivity|].
  unfold process_hits in *. cbn [flat_map].
  rewrite writes_app, recomputed_app, filter_app, IH. f_equal.
  destruct h as [a|]; [|reflexivity]. unfold process_hit.
  destruct (a_refs a) as [[|]|]; try reflexivity.
  cbn. destruct (ok (a_id a)); reflexivity.
Qed.

Lemma scan_loop_recomputed ok rest : forall hs sid,
  truthy_str sid = true ->
  Forall (fun r => exists p, r = Some p /\ truthy_str (scroll_id p) = true) rest ->
  recomputed (fst (scan_loop ok hs sid rest))
  = flat_map analytic_ids_with_refs (take_nonempty (hs :: map hits_of rest)).
Proof.
  induction rest as [|r rest IH]; intros hs sid Hsid Hrest;
    (destruct sid as [s|]; [|discriminate]);
    (assert (Es : String.eqb s "" = false)
       by (unfold truthy_str in Hsid; destruct (String.eqb s ""); [discriminate|reflexivity]));
    (destruct hs as [|h hs]; [reflexivity|]);
    cbn [scan_loop]; rewrite Es.
  - cbn [fst]. rewrite recomputed_app, recomputed_process_hits.
    cbn. rewrite !app_nil_r. reflexivity.
  - inversion Hrest as [|? ? [p [-> Hp]] Hrest']; subst.
    destruct (scan_loop ok (hits p) (scroll_id p) rest) as [ops' r'] eqn:E.
    cbn [fst]. rewrite recomputed_app, recomputed_process_hits.
    specialize (IH (hits p) (scroll_id p) Hp Hrest'). rewrite E in IH. cbn [fst] in IH.
    cbn [recomputed flat_map]. fold (recomputed ops'). rewrite IH.
    reflexivity.
Qed.

Lemma scan_loop_writes ok rest : forall hs sid,
  writes (fst (scan_loop ok hs sid rest)) = filter ok (recomputed (fst (scan_loop ok hs sid rest))).
Proof.
  induction rest as [|r rest IH]; intros hs sid;
    destruct hs as [|h hs]; try reflexivity;
    destruct sid as [s|]; cbn [scan_loop fst]; try apply writes_process_hits;
    (destruct (String.eqb s ""); cbn [fst]; [apply writes_process_hits|]).
  - rewrite writes_app, recomputed_app, filter_app, writes_process_hits. reflexivity.
  - destruct r as [p|].
    + destruct (scan_loop ok (hits p) (scroll_id p) rest) as [ops' r'] eqn:Es.
      cbn [fst]. specialize (IH (hits p) (scroll_id p)). rewrite Es in IH. cbn [fst] in IH.
      rewrite writes_app, recomputed_app, filter_app, writes_process_hits.
      cbn [writes recomputed flat_map app]. fold (writes ops') (recomputed ops').
      rewrite IH. reflexivity.
    + cbn [fst]. rewrite writes_app, recomputed_app, filter_app, writes_process_hits.
      reflexivity.
Qed.

(** A full pass writes exactly the recomputed analytics whose recomputation
    and write succeed.  When the ECS index exists and the first search and
    every scroll continuation answer with a present, non-empty scroll id, it
    recomputes every analytic of the catalog that has log-source references,
    page by page up to the first empty page, in order: a failing analytic
    does not stop the pass. *)
Theorem full_pass_covers_catalog (e : scan_env) (p : page) :
  (writes (fst (processAllAnalytics e))
   = filter (recompute_ok e) (recomputed (fst (processAllAnalytics e)))) /\
  (ecs_exists e = Some true -> first_page e = Some p -> truthy_str (scroll_id p) = true ->
   Forall (fun r => exists p', r = Some p' /\ truthy_str (scroll_id p') = true) (next_pages e) ->
   recomputed (fst (processAllAnalytics e))
   = flat_map analytic_ids_with_refs (take_nonempty (hits p :: map hits_of (next_pages e)))).
Proof.
  split.
  - unfold processAllAnalytics.
    destruct (ecs_exists e) as [[|]|]; try reflexivity.
    destruct (first_page e) as [p0|]; try reflexivity.
    pose proof (scan_loop_writes (recompute_ok e) (next_pages e) (hits p0) (scroll_id p0)) as Hw.
    destruct (scan_loop (recompute_ok e) (hits p0) (scroll_id p0) (next_pages e)) as [ops r].
    cbn [fst] in Hw.
    destruct r as [sid|].
    + destruct sid as [s|]; [destruct (String.eqb s ""); [|destruct (clear_ok e)]|]; cbn [fst];
        rewrite ?writes_app, ?recomputed_app, ?filter_app;
        cbn [writes recomputed flat_map app filter]; fold (writes ops) (recomputed ops);
        rewrite Hw; rewrite ?app_nil_r; reflexivity.
    + cbn [fst writes recomputed flat_map app]. fold (writes ops) (recomputed ops).
      exact Hw.
  - intros Hx Hp Hsid Hrest. unfold processAllAnalytics. rewrite Hx, Hp.
    pose proof (scan_loop_recomputed (recompute_ok e) (next_pages e) (hits p) (scroll_id p)
                  Hsid Hrest) as Hr.
    destruct (scan_loop_completes (recompute_ok e) (next_pages e) (hits p) (scroll_id p)
                Hsid Hrest) as [s [Hs Es]].
    destruct (scan_loop (recompute_ok e) (hits p) (scroll_id p) (next_pages e)) as [ops r].
    cbn [fst snd] in Hr, Hs. subst r. rewrite Es.
    destruct (clear_ok e); cbn [fst];
      rewrite ?recomputed_app; cbn [recomputed flat_map app];
      fold (recomputed ops); rewrite ?app_nil_r; exact Hr.
Qed.

Lemma full_pass_covers_catalog_witness :
  Samples.refresh_error_env.(ecs_exists) = Some true /\
  recomputed (fst (processAllAnalytics Samples.refresh_error_env))
  = flat_map analytic_ids_with_refs
      (take_nonempty
         (hits (mkPage [Some (Samples.sample_analytic "x-mitre-analytic--1")] (Some "scroll-1"))
          :: map hits_of (next_pages Samples.refresh_error_env))).
Proof.
  split; [reflexivity|].
  apply (proj2 (full_pass_covers_catalog Samples.refresh_error_env
           (mkPage [Some (Samples.sample_analytic "x-mitre-analytic--1")] (Some "scroll-1")))).
  - reflexivity.
  - reflexivity.
  - reflexivity.
  - repeat constructor. eexists. split; reflexivity.
Defined.

End RunnerExtraFacts.

Module ProbeExtraFacts.
Import Js Probe Views.


Lemma string_app_assoc (a b c : string) : (a ++ b) ++ c = a ++ (b ++ c).
Proof. induction a as [|x a IH]; simpl; [reflexivity|]. rewrite IH. reflexivity. Qed.

Lemma string_app_nil_r (a : string) : a ++ "" = a.
Proof. induction a as [|x a IH]; simpl; [reflexivity|]. rewrite IH. reflexivity. Qed.

Lemma split_comma_aux_nonempty s : forall cur, split_comma_aux s cur <> [].
Proof. induction s as [|c s IH]; intros cur; simpl; [discriminate|].
  destruct (Ascii.eqb c ","%char); [discriminate|apply IH]. Qed.

Lemma split_comma_aux_join s : forall cur,
  String.concat "," (split_comma_aux s cur) = cur ++ s.
Proof.
  induction s as [|c s IH]; intros cur; simpl.
  - rewrite string_app_nil_r. reflexivity.
  - destruct (Ascii.eqb_spec c ","%char) as [->|Hc].
    + pose proof (split_comma_aux_nonempty s "") as Hne.
      destruct (split_comma_aux s "") as [|x xs] eqn:E; [congruence|].
      change (String.concat "," (cur :: x :: xs)) with (cur ++ "," ++ String.concat "," (x :: xs)).
      rewrite <- E, IH. reflexivity.
    + rewrite IH, string_app_assoc. reflexivity.
Qed.

Lemma split_comma_aux_length s : forall cur,
  length (split_comma_aux s cur) = S (count_commas s).
Proof.
  induction s as [|c s IH]; intros cur; simpl; [reflexivity|].
  destruct (Ascii.eqb c ","%char); simpl; rewrite IH; reflexivity.
Qed.

Lemma split_comma_no_comma s : forall cur,
  count_commas s = 0%nat -> split_comma_aux s cur = [cur ++ s].
Proof.
  induction s as [|c s IH]; intros cur H; simpl in *.
  - rewrite string_app_nil_r. reflexivity.
  - destruct (Ascii.eqb c ","%char); [discriminate|].
    rewrite IH by exact H. rewrite string_app_assoc. reflexivity.
Qed.

(** With a non-empty channel field and channel value, [queryFieldExists]
    probes the name clause and one channel clause: a [term] clause on the
    trimmed value when the value has no comma, and otherwise a [terms]
    clause with one trimmed entry per comma-separated part (one more than
    the number of commas), the parts joining back with commas into the
    value. *)
Theorem channel_clause_shape (store : log_store) (nf nv cf cv : string) :
  nf <> "" -> nv <> "" -> cf <> "" -> cv <> "" ->
  exists c, snd (queryFieldExists store nf nv (Some cf) (Some cv)) = Some [Term nf nv; c] /\
    (count_commas cv = 0%nat -> c = Term cf (trim cv)) /\
    (0 < count_commas cv -> exists parts,
        c = Terms cf (map trim parts) /\ length parts = S (count_commas cv) /\
        String.concat "," parts = cv)%nat.
Proof.
  intros Hnf Hnv Hcf Hcv.
  unfold queryFieldExists.
  rewrite (proj2 (String.eqb_neq _ _) Hnf), (proj2 (String.eqb_neq _ _) Hnv). simpl orb.
  unfold must_clauses. unfold truthy_str.
  rewrite (proj2 (String.eqb_neq _ _) Hcf), (proj2 (String.eqb_neq _ _) Hcv). simpl negb. simpl andb.
  rewrite length_map. unfold split_comma. rewrite split_comma_aux_length.
  destruct (count_commas cv) as [|n] eqn:Hn.
  - rewrite split_comma_no_comma by exact Hn. simpl.
    eexists. split; [destruct (store _) as [[|]|]; reflexivity|].
    split; [reflexivity|intros H; lia].
  - simpl.
    eexists. split; [destruct (store _) as [[|]|]; reflexivity|].
    split; [intros H; discriminate|].
    intros _. exists (split_comma_aux cv ""). split; [reflexivity|].
    split; [rewrite split_comma_aux_length, Hn; reflexivity|].
    rewrite split_comma_aux_join. reflexivity.
Qed.

Lemma channel_clause_shape_witness :
  ("winlog.channel" <> "" /\ "Security" <> "" /\ "event.code" <> "" /\ "4688, 4689" <> "") /\
  exists c, snd (queryFieldExists (fun _ => Some None) "winlog.channel" "Security"
                   (Some "event.code") (Some "4688, 4689"))
            = Some [Term "winlog.channel" "Security"; c] /\
    (count_commas "4688, 4689" = 0%nat -> c = Term "event.code" (trim "4688, 4689")) /\
    (0 < count_commas "4688, 4689" -> exists parts,
        c = Terms "event.code" (map trim parts) /\ length parts = S (count_commas "4688, 4689") /\
        String.concat "," parts = "4688, 4689")%nat.
Proof.
  split; [repeat split; discriminate|].
  apply channel_clause_shape; discriminate.
Defined.

End ProbeExtraFacts.

Module MatrixExtraFacts.
Import Parser Matrix Views.

Lemma includes_dot_app (p r : string) :
  includes_dot p = false -> includes_dot (p ++ "." ++ r) = true.
Proof.
  unfold includes_dot. induction p as [|c p IH]; intros H; [reflexivity|].
  cbn [append list_ascii_of_string existsb] in *.
  apply orb_false_iff in H as [H1 H2]. rewrite H1. apply IH, H2.
Qed.

Lemma before_dot_app (p r : string) :
  includes_dot p = false -> before_dot (p ++ "." ++ r) = p.
Proof.
  unfold includes_dot. induction p as [|c p IH]; intros H; [reflexivity|].
  cbn [append list_ascii_of_string existsb before_dot replace_first_dot] in *.
  apply orb_false_iff in H as [H1 H2]. rewrite Ascii.eqb_sym, H1. rewrite IH by exact H2. reflexivity.
Qed.

Lemma replace_first_dot_app (p r : string) :
  includes_dot p = false -> replace_first_dot (p ++ "." ++ r) = p ++ "/" ++ r.
Proof.
  unfold includes_dot. induction p as [|c p IH]; intros H; [reflexivity|].
  cbn [append list_ascii_of_string existsb before_dot replace_first_dot] in *.
  apply orb_false_iff in H as [H1 H2]. rewrite Ascii.eqb_sym, H1. rewrite IH by exact H2. reflexivity.
Qed.

(** For an attack pattern whose MITRE reference has external id
    [p.rest] with a dot-free [p] (such as [T1059.001]), the technique
    keeps that external id, has parent technique [p] exactly when the
    pattern is flagged [x_mitre_is_subtechnique: true] and none otherwise,
    and, when the reference has no URL, gets the URL of the ATT&CK site
    with only the first dot turned into a slash. *)
Theorem convert_subtechnique_parent (pattern : stix_attack_pattern) (p rest : string) :
  external_id_or_empty (find_mitre_ref (ap_external_references pattern)) = p ++ "." ++ rest ->
  includes_dot p = false ->
  tech_externalId (convert_technique pattern) = p ++ "." ++ rest /\
  tech_parentTechniqueId (convert_technique pattern)
    = (if truthy_bool (ap_x_mitre_is_subtechnique pattern) then Some p else None) /\
  tech_url (convert_technique pattern)
    = url_or (find_mitre_ref (ap_external_references pattern))
             ("https://attack.mitre.org/techniques/" ++ p ++ "/" ++ rest).
Proof.
  intros He Hp. unfold convert_technique. rewrite He. cbn [tech_externalId tech_parentTechniqueId tech_url].
  rewrite includes_dot_app, before_dot_app, replace_first_dot_app by exact Hp.
  split; [reflexivity|]. split; [|reflexivity].
  unfold truthy_bool. destruct (ap_x_mitre_is_subtechnique pattern) as [[|]|]; reflexivity.
Qed.

Lemma convert_subtechnique_parent_witness :
  external_id_or_empty (find_mitre_ref [mkExtRef "mitre-attack" (Some "T1059.001") None])
    = "T1059" ++ "." ++ "001" /\
  includes_dot "T1059" = false /\
  let pattern := mkAttackPattern "attack-pattern--s1" "PowerShell" ""
                   [mkExtRef "mitre-attack" (Some "T1059.001") None]
                   (Some [mkPhase "mitre-attack" "execution"]) (Some true) None None in
  tech_externalId (convert_technique pattern) = "T1059" ++ "." ++ "001" /\
  tech_parentTechniqueId (convert_technique pattern)
    = (if truthy_bool (ap_x_mitre_is_subtechnique pattern) then Some "T1059" else None) /\
  tech_url (convert_technique pattern)
    = url_or (find_mitre_ref (ap_external_references pattern))
             ("https://attack.mitre.org/techniques/" ++ "T1059" ++ "/" ++ "001").
Proof.
  split; [reflexivity|]. split; [reflexivity|].
  apply convert_subtechnique_parent; reflexivity.
Defined.

Lemma insert_sorted_perm x l : Permutation (insert_sorted x l) (x :: l).
Proof.
  induction l as [|y l IH]; simpl; [reflexivity|].
  destruct (String.leb x y); [reflexivity|].
  rewrite IH. apply perm_swap.
Qed.

Lemma sort_strings_perm l : Permutation (sort_strings l) l.
Proof.
  induction l as [|x l IH]; simpl; [reflexivity|].
  unfold sort_strings in *. simpl. rewrite insert_sorted_perm, IH. reflexivity.
Qed.

Lemma insert_sorted_sorted x l :
  Sorted (fun a b => String.leb a b = true) l ->
  Sorted (fun a b => String.leb a b = true) (insert_sorted x l).
Proof.
  induction l as [|y l IH]; simpl; intros Hs.
  - repeat constructor.
  - destruct (String.leb x y) eqn:Exy.
    + constructor; [exact Hs|constructor; exact Exy].
    + apply Sorted_inv in Hs as [Hl Hh].
      constructor; [apply IH, Hl|].
      assert (Hyx : String.leb y x = true)
        by (destruct (String.leb_total x y); congruence).
      destruct l as [|z l]; simpl; [constructor; exact Hyx|].
      destruct (String.leb x z); constructor; [exact Hyx|].
      inversion Hh; assumption.
Qed.

Lemma sort_strings_sorted l :
  Sorted (fun a b => String.leb a b = true) (sort_strings l).
Proof.
  induction l as [|x l IH]; [constructor|].
  unfold sort_strings in *. simpl. apply insert_sorted_sorted, IH.
Qed.

Lemma set_add_fold_nodup ps : forall s, NoDup s -> NoDup (fold_left set_add ps s).
Proof.
  induction ps as [|p ps IH]; intros s Hs; simpl; [exact Hs|].
  apply IH. unfold set_add.
  destruct (existsb (String.eqb p) s) eqn:E; [exact Hs|].
  apply NoDup_app; [exact Hs|repeat constructor; simpl; tauto|].
  intros x Hx [ -> | [] ]. apply Bool.not_true_iff_false in E. apply E.
  apply existsb_exists. exists x. split; [exact Hx|apply String.eqb_refl].
Qed.

Lemma set_add_fold_in ps : forall s x, In x (fold_left set_add ps s) <-> In x s \/ In x ps.
Proof.
  induction ps as [|p ps IH]; intros s x; simpl; [tauto|].
  rewrite IH. unfold set_add.
  destruct (existsb (String.eqb p) s) eqn:E.
  - apply existsb_exists in E as [y [Hy Hpy]]. apply String.eqb_eq in Hpy. subst y.
    split; [tauto|]. intros [H|[<-|H]]; tauto.
  - rewrite in_app_iff. simpl. split; intros; tauto.
Qed.

Lemma platforms_fold_nodup l : forall s, NoDup s -> NoDup (fold_left platforms_step l s).
Proof.
  induction l as [|a l IH]; intros s Hs; simpl; [exact Hs|].
  apply IH. unfold platforms_step. destruct (an_x_mitre_platforms a); [|exact Hs].
  apply set_add_fold_nodup, Hs.
Qed.

Lemma platforms_fold_in l : forall s x,
  In x (fold_left platforms_step l s) <->
  In x s \/ exists a ps, In a l /\ an_x_mitre_platforms a = Some ps /\ In x ps.
Proof.
  induction l as [|a l IH]; intros s x; simpl.
  - split; [tauto|]. intros [H|[a [ps [[] _]]]]; exact H.
  - rewrite IH. unfold platforms_step. destruct (an_x_mitre_platforms a) as [ps|] eqn:Ea.
    + rewrite set_add_fold_in. split.
      * intros [[H|H]|[b [qs [Hb Hq]]]]; [tauto| |].
        -- right. exists a, ps. tauto.
        -- right. exists b, qs. tauto.
      * intros [H|[b [qs [[<-|Hb] [Hq Hx]]]]]; [tauto| |].
        -- rewrite Ea in Hq. injection Hq as <-. tauto.
        -- right. exists b, qs. tauto.
    + split.
      * intros [H|[b [qs [Hb Hq]]]]; [tauto|]. right. exists b, qs. tauto.
      * intros [H|[b [qs [[<-|Hb] [Hq Hx]]]]]; [tauto| |].
        -- congruence.
        -- right. exists b, qs. tauto.
Qed.

(** The platform list of the matrix is sorted in code-unit order, holds
    no platform twice, and holds exactly the platforms listed by some
    analytic of the analytics map. *)
Theorem available_platforms_sorted_complete (analyticsMap : js_map stix_analytic) :
  Sorted (fun a b => String.leb a b = true) (collectAvailablePlatforms analyticsMap) /\
  NoDup (collectAvailablePlatforms analyticsMap) /\
  (forall x, In x (collectAvailablePlatforms analyticsMap) <-> offers_platform analyticsMap x).
Proof.
  unfold collectAvailablePlatforms. fold platforms_step.
  split; [apply sort_strings_sorted|]. split.
  - eapply Permutation_NoDup; [symmetry; apply sort_strings_perm|].
    apply platforms_fold_nodup. constructor.
  - intros x. split.
    + intros H. eapply Permutation_in in H; [|apply sort_strings_perm].
      apply platforms_fold_in in H as [[]|[a [ps [Ha [Hp Hx]]]]].
      apply in_map_iff in Ha as [[k a'] [Ea Hk]]. simpl in Ea. subst a'.
      exists k, a, ps. tauto.
    + intros [k [a [ps [Hk [Hp Hx]]]]].
      eapply Permutation_in; [symmetry; apply sort_strings_perm|].
      apply platforms_fold_in. right. exists a, ps. split; [|tauto].
      apply in_map_iff. exists (k, a). tauto.
Qed.

End MatrixExtraFacts.

Module BuildFacts.
Import Parser Matrix Views.
Local Open Scope list_scope.

Lemma set_subtechniques_twice t a b :
  set_subtechniques (set_subtechniques t a) b = set_subtechniques t b.
Proof. destruct t; reflexivity. Qed.

Lemma push_subtechnique_set sub t l :
  push_subtechnique sub (set_subtechniques t (Some l)) = set_subtechniques t (Some (l ++ [sub])).
Proof. destruct t; reflexivity. Qed.

Lemma sort_subtechniques_set sort_by_name t l :
  sort_subtechniques sort_by_name (set_subtechniques t (Some l))
  = set_subtechniques t (Some (sort_by_name l)).
Proof. destruct t; reflexivity. Qed.

Lemma tacticShortNames_set t s :
  tech_tacticShortNames (set_subtechniques t s) = tech_tacticShortNames t.
Proof. destruct t; reflexivity. Qed.

Lemma map_set_fresh {V} (m : js_map V) k v :
  ~ In k (map fst m) -> map_set m k v = m ++ [(k, v)].
Proof.
  induction m as [|[k' v'] m IH]; simpl; intros H; [reflexivity|].
  destruct (String.eqb_spec k k') as [->|]; [tauto|].
  rewrite IH by tauto. reflexivity.
Qed.

Lemma parents_fold (ps : list mitre_technique) : forall (m : js_map mitre_technique),
  NoDup (map tech_externalId ps) ->
  (forall t, In t ps -> ~ In (tech_externalId t) (map fst m)) ->
  fold_left (fun m t => map_set m (tech_externalId t) (set_subtechniques t (Some []))) ps m
  = m ++ map (fun t => (tech_externalId t, set_subtechniques t (Some []))) ps.
Proof.
  induction ps as [|t ps IH]; intros m Hnd Hf; simpl; [symmetry; apply app_nil_r|].
  inversion Hnd as [|? ? Hnin Hnd']; subst.
  rewrite map_set_fresh by (apply Hf; left; reflexivity).
  rewrite IH; [rewrite <- app_assoc; reflexivity|exact Hnd'|].
  intros u Hu. rewrite map_app, in_app_iff. simpl. intros [H|[H|[]]].
  - apply (Hf u); [right; exact Hu|exact H].
  - apply Hnin. rewrite H. apply in_map, Hu.
Qed.

Lemma map_update_unique (ps : list mitre_technique) (h : mitre_technique -> mitre_technique) k f :
  NoDup (map tech_externalId ps) ->
  map_update (map (fun t => (tech_externalId t, h t)) ps) k f
  = map (fun t => (tech_externalId t, if String.eqb k (tech_externalId t) then f (h t) else h t)) ps.
Proof.
  induction ps as [|t ps IH]; intros Hnd; simpl; [reflexivity|].
  inversion Hnd as [|? ? Hnin Hnd']; subst.
  destruct (String.eqb_spec k (tech_externalId t)) as [->|Hk].
  - f_equal. apply map_ext_in. intros u Hu.
    destruct (String.eqb_spec (tech_externalId t) (tech_externalId u)) as [E|]; [|reflexivity].
    exfalso. apply Hnin. rewrite E. apply in_map, Hu.
  - f_equal. apply IH, Hnd'.
Qed.

Lemma subtechniques_fold (ps : list mitre_technique) : forall subs acc,
  NoDup (map tech_externalId ps) ->
  (forall s, In s subs -> tech_isSubtechnique s = true) ->
  fold_left
    (fun m sub =>
       match tech_parentTechniqueId sub with
       | Some p => if String.eqb p "" then m else map_update m p (push_subtechnique sub)
       | None => m
       end)
    subs (map (fun t => (tech_externalId t, set_subtechniques t (Some (acc t)))) ps)
  = map (fun t => (tech_externalId t,
                   set_subtechniques t (Some (acc t ++ filter (attached_to (tech_externalId t)) subs))))
        ps.
Proof.
  induction subs as [|s subs IH]; intros acc Hnd Hs; cbn [fold_left].
  - apply map_ext. intros t. rewrite app_nil_r. reflexivity.
  - assert (Hss : tech_isSubtechnique s = true) by (apply Hs; left; reflexivity).
    assert (Hs' : forall u, In u subs -> tech_isSubtechnique u = true) by (intros u Hu; apply Hs; right; exact Hu).
    set (acc' := fun t => acc t ++ (if attached_to (tech_externalId t) s then [s] else [])).
    assert (Hstep :
      match tech_parentTechniqueId s with
      | Some p => if String.eqb p "" then
                    map (fun t => (tech_externalId t, set_subtechniques t (Some (acc t)))) ps
                  else map_update (map (fun t => (tech_externalId t, set_subtechniques t (Some (acc t)))) ps)
                         p (push_subtechnique s)
      | None => map (fun t => (tech_externalId t, set_subtechniques t (Some (acc t)))) ps
      end = map (fun t => (tech_externalId t, set_subtechniques t (Some (acc' t)))) ps).
    { unfold acc', attached_to. rewrite Hss. simpl andb.
      destruct (tech_parentTechniqueId s) as [p|].
      - destruct (String.eqb_spec p "") as [->|Hp].
        + apply map_ext. intros t. simpl. rewrite app_nil_r. reflexivity.
        + rewrite map_update_unique by exact Hnd. apply map_ext. intros t. simpl.
          destruct (String.eqb (p) (tech_externalId t)).
          * rewrite push_subtechnique_set. reflexivity.
          * rewrite app_nil_r. reflexivity.
      - apply map_ext. intros t. rewrite app_nil_r. reflexivity. }
    cbv beta. match goal with |- fold_left _ subs ?m = _ => replace m with (map (fun t => (tech_externalId t, set_subtechniques t (Some (acc' t)))) ps) by (symmetry; exact Hstep) end.
    rewrite IH by assumption. apply map_ext. intros t. unfold acc'.
    rewrite <- app_assoc. cbn [filter]. destruct (attached_to (tech_externalId t) s); reflexivity.
Qed.

Lemma filter_attached_subs e (techniques : list mitre_technique) :
  filter (attached_to e) (filter tech_isSubtechnique techniques) = filter (attached_to e) techniques.
Proof.
  induction techniques as [|t ts IH]; simpl; [reflexivity|].
  destruct (tech_isSubtechnique t) eqn:E; simpl.
  - destruct (attached_to e t); rewrite IH; reflexivity.
  - unfold attached_to at 2. rewrite E. simpl. exact IH.
Qed.

(** [buildMatrix] lists the fourteen tactics in the canonical order and
    passes the platform list through.  When the parent techniques have
    distinct external ids and the name sort returns a permutation, the
    techniques listed under a tactic are exactly the parent techniques
    naming that tactic, each listed once per occurrence with, as
    [subtechniques], the name-sorted subtechniques whose truthy
    [parentTechniqueId] is its external id, in input order before the
    sort. *)
Theorem build_matrix_tactics (sort_by_name : list mitre_technique -> list mitre_technique)
        (techs : list mitre_technique) (platforms : list string) :
  (forall l, Permutation (sort_by_name l) l) ->
  NoDup (map tech_externalId (filter (fun t => negb (tech_isSubtechnique t)) techs)) ->
  map tactic (tactics (buildMatrix sort_by_name techs platforms)) = MITRE_TACTICS_ORDER /\
  availablePlatforms (buildMatrix sort_by_name techs platforms) = platforms /\
  (forall tw, In tw (tactics (buildMatrix sort_by_name techs platforms)) ->
   forall x, In x (Parser.techniques tw) <->
     exists t, In t techs /\ tech_isSubtechnique t = false /\
       In (shortName (tactic tw)) (tech_tacticShortNames t) /\
       x = set_subtechniques t
             (Some (sort_by_name (filter (attached_to (tech_externalId t)) techs)))).
Proof.
  intros Hperm Hnd.
  set (ps := filter (fun t => negb (tech_isSubtechnique t)) techs) in *.
  assert (Hmap : map snd (map (fun '(k, t) => (k, sort_subtechniques sort_by_name t))
      (fold_left
         (fun m sub =>
            match tech_parentTechniqueId sub with
            | Some p => if String.eqb p "" then m else map_update m p (push_subtechnique sub)
            | None => m
            end)
         (filter tech_isSubtechnique techs)
         (fold_left (fun m t => map_set m (tech_externalId t) (set_subtechniques t (Some [])))
            ps [])))
    = map (fun t => set_subtechniques t
             (Some (sort_by_name (filter (attached_to (tech_externalId t)) techs)))) ps).
  { rewrite parents_fold by (simpl; tauto). rewrite app_nil_l.
    change (map (fun t => (tech_externalId t, set_subtechniques t (Some []))) ps)
      with (map (fun t => (tech_externalId t, set_subtechniques t (Some ((fun _ => []) t)))) ps).
    rewrite subtechniques_fold; [| exact Hnd | intros s Hs; apply filter_In in Hs; tauto].
    rewrite !map_map. apply map_ext. intros t. simpl.
    rewrite sort_subtechniques_set, filter_attached_subs. reflexivity. }
  unfold buildMatrix. fold ps. cbn [tactics availablePlatforms].
  split; [rewrite map_map; apply map_id|]. split; [reflexivity|].
  intros tw Htw x. apply in_map_iff in Htw as [tac [<- Htac]].
  cbn [tactic Parser.techniques]. rewrite Hmap.
  split.
  - intros Hx. eapply Permutation_in in Hx; [|apply Hperm].
    apply filter_In in Hx as [Hx Hsn]. apply in_map_iff in Hx as [t [<- Ht]].
    apply filter_In in Ht as [Ht Hns].
    exists t. split; [exact Ht|]. split; [destruct (tech_isSubtechnique t); easy|].
    split; [|reflexivity].
    rewrite tacticShortNames_set in Hsn. apply existsb_exists in Hsn as [y [Hy Ey]].
    apply String.eqb_eq in Ey. subst y. exact Hy.
  - intros [t [Ht [Hns [Hsn ->]]]].
    eapply Permutation_in; [symmetry; apply Hperm|].
    apply filter_In. split.
    + apply in_map_iff. exists t. split; [reflexivity|]. apply filter_In. split; [exact Ht|]. rewrite Hns. reflexivity.
    + rewrite tacticShortNames_set. apply existsb_exists. exists (shortName tac).
      split; [exact Hsn|apply String.eqb_refl].
Qed.

Lemma build_matrix_tactics_witness :
  let techs :=
    [mkTechnique "attack-pattern--p" "Command and Scripting Interpreter" "T1059"
       "https://attack.mitre.org/techniques/T1059" "" ["execution"] false None None None;
     mkTechnique "attack-pattern--s" "PowerShell" "T1059.001"
       "https://attack.mitre.org/techniques/T1059/001" "" ["execution"] true (Some "T1059")
       None None] in
  (forall l, Permutation ((fun l : list mitre_technique => l) l) l) /\
  NoDup (map tech_externalId (filter (fun t => negb (tech_isSubtechnique t)) techs)) /\
  map tactic (tactics (buildMatrix (fun l => l) techs [])) = MITRE_TACTICS_ORDER /\
  availablePlatforms (buildMatrix (fun l => l) techs []) = [] /\
  (forall tw, In tw (tactics (buildMatrix (fun l => l) techs [])) ->
   forall x, In x (Parser.techniques tw) <->
     exists t, In t techs /\ tech_isSubtechnique t = false /\
       In (shortName (tactic tw)) (tech_tacticShortNames t) /\
       x = set_subtechniques t
             (Some ((fun l => l) (filter (attached_to (tech_externalId t)) techs)))).
Proof.
  intros techs.
  assert (Hp : forall l, Permutation ((fun l : list mitre_technique => l) l) l)
    by (intros l; apply Permutation_refl).
  assert (Hn : NoDup (map tech_externalId (filter (fun t => negb (tech_isSubtechnique t)) techs)))
    by (simpl; constructor; [intros []|constructor]).
  split; [exact Hp|]. split; [exact Hn|].
  exact (build_matrix_tactics (fun l => l) techs [] Hp Hn).
Defined.

End BuildFacts.

Module LinkFacts.
Import Parser Matrix Views.
Local Open Scope list_scope.

Lemma map_get_app {V} (a b : js_map V) k :
  map_get (a ++ b) k = match map_get a k with Some v => Some v | None => map_get b k end.
Proof.
  induction a as [|[k' v] a IH]; simpl; [reflexivity|].
  destruct (String.eqb k k'); [reflexivity|exact IH].
Qed.

Lemma technique_id_map_app (ts : list mitre_technique) : forall m i,
  NoDup (map tech_id ts) ->
  (forall t, In t ts -> ~ In (tech_id t) (map fst m)) ->
  technique_id_map m i ts = m ++ combine (map tech_id ts) (seq i (length ts)).
Proof.
  induction ts as [|t ts IH]; intros m i Hnd Hf; simpl; [symmetry; apply app_nil_r|].
  inversion Hnd as [|? ? Hnin Hnd']; subst.
  assert (Hm : map_set m (tech_id t) i = m ++ [(tech_id t, i)]).
  { clear -Hf. assert (H : ~ In (tech_id t) (map fst m)) by (apply Hf; left; reflexivity).
    clear Hf. induction m as [|[k v] m IHm]; simpl in *; [reflexivity|].
    destruct (String.eqb_spec (tech_id t) k) as [E|]; [exfalso; apply H; left; symmetry; exact E|].
    rewrite IHm by tauto. reflexivity. }
  rewrite Hm, IH; [rewrite <- app_assoc; reflexivity|exact Hnd'|].
  intros u Hu. rewrite map_app, in_app_iff. simpl. intros [H|[H|[]]].
  - apply (Hf u); [right; exact Hu|exact H].
  - apply Hnin. rewrite H. apply in_map, Hu.
Qed.

Lemma combine_get (ts : list mitre_technique) : forall i k,
  match map_get (combine (map tech_id ts) (seq i (length ts))) k with
  | Some j => exists t, (i <= j)%nat /\ nth_error ts (j - i) = Some t /\ tech_id t = k
  | None => forall t, In t ts -> tech_id t <> k
  end.
Proof.
  induction ts as [|t ts IH]; intros i k; simpl; [tauto|].
  destruct (String.eqb_spec k (tech_id t)) as [->|Hk].
  - exists t. rewrite Nat.sub_diag. auto.
  - specialize (IH (S i) k).
    destruct (map_get (combine (map tech_id ts) (seq (S i) (length ts))) k) as [j|].
    + destruct IH as [u [Hij [Hn Hu]]]. exists u. split; [lia|].
      replace (j - i)%nat with (S (j - S i)) by lia. simpl. auto.
    + intros u [<-|Hu]; [congruence|]. apply IH, Hu.
Qed.

Lemma update_nth_unique (ts : list mitre_technique) (g : mitre_technique -> mitre_technique)
      (f : mitre_technique -> mitre_technique) : forall j t,
  NoDup (map tech_id ts) -> nth_error ts j = Some t ->
  update_nth (map g ts) j f
  = map (fun u => if String.eqb (tech_id u) (tech_id t) then f (g u) else g u) ts.
Proof.
  induction ts as [|u ts IH]; intros j t Hnd Hj; [destruct j; discriminate|].
  inversion Hnd as [|? ? Hnin Hnd']; subst.
  destruct j as [|j]; simpl in Hj |- *.
  - injection Hj as ->. rewrite String.eqb_refl. f_equal.
    apply map_ext_in. intros v Hv.
    destruct (String.eqb_spec (tech_id v) (tech_id t)) as [E|]; [|reflexivity].
    exfalso. apply Hnin. rewrite <- E. apply in_map, Hv.
  - destruct (String.eqb_spec (tech_id u) (tech_id t)) as [E|].
    + exfalso. apply Hnin. rewrite E. apply in_map. eapply nth_error_In, Hj.
    + f_equal. apply IH; assumption.
Qed.

Lemma push_with_strategies e t es :
  push_strategy e (with_strategies t es) = with_strategies t (es ++ [e]).
Proof.
  destruct es as [|e' es]; destruct t; simpl; [reflexivity|].
  rewrite <- app_assoc. reflexivity.
Qed.

Lemma tech_id_with_strategies t es : tech_id (with_strategies t es) = tech_id t.
Proof. destruct es; destruct t; reflexivity. Qed.

Lemma link_fold (ds : js_map stix_detection_strategy) (am : js_map stix_analytic)
      (techniques : list mitre_technique) : forall rels acc,
  NoDup (map tech_id techniques) ->
  fold_left
    (fun ts relationship =>
       match map_get (technique_id_map [] 0 techniques) (target_ref_ relationship),
             map_get ds (source_ref_ relationship) with
       | Some i, Some strategy =>
           update_nth ts i (push_strategy (strategy_entry am strategy))
       | _, _ => ts
       end)
    rels (map (fun u => with_strategies u (acc (tech_id u))) techniques)
  = map (fun u => with_strategies u (acc (tech_id u) ++ link_entries ds am rels (tech_id u)))
        techniques.
Proof.
  intros rels. induction rels as [|rel rels IH]; intros acc Hnd; cbn [fold_left].
  - apply map_ext. intros u. rewrite app_nil_r. reflexivity.
  - set (acc' := fun k => acc k ++ link_entries ds am [rel] k).
    assert (Hstep :
      match map_get (technique_id_map [] 0 techniques) (target_ref_ rel),
            map_get ds (source_ref_ rel) with
      | Some i, Some strategy =>
          update_nth (map (fun u => with_strategies u (acc (tech_id u))) techniques) i
                     (push_strategy (strategy_entry am strategy))
      | _, _ => map (fun u => with_strategies u (acc (tech_id u))) techniques
      end = map (fun u => with_strategies u (acc' (tech_id u))) techniques).
    { unfold acc', link_entries. cbn [flat_map].
      rewrite technique_id_map_app by (simpl; tauto). cbn [app].
      pose proof (combine_get techniques 0 (target_ref_ rel)) as Hc.
      destruct (map_get (combine (map tech_id techniques) (seq 0 (length techniques)))
                  (target_ref_ rel)) as [j|].
      - destruct Hc as [t [_ [Hj Ht]]]. rewrite Nat.sub_0_r in Hj.
        destruct (map_get ds (source_ref_ rel)) as [strategy|].
        + rewrite update_nth_unique with (t := t) by assumption.
          apply map_ext. intros u. rewrite Ht, String.eqb_sym.
          destruct (String.eqb (target_ref_ rel) (tech_id u)); cbn [app];
            rewrite ?push_with_strategies, ?app_nil_r; reflexivity.
        + apply map_ext. intros u.
          destruct (String.eqb (target_ref_ rel) (tech_id u)); cbn [app]; rewrite app_nil_r; reflexivity.
      - apply map_ext_in. intros u Hu.
        rewrite (proj2 (String.eqb_neq _ _) (fun E => Hc u Hu (eq_sym E))). cbn [app].
        rewrite app_nil_r. reflexivity. }
    match goal with |- fold_left _ rels ?m = _ =>
      replace m with (map (fun u => with_strategies u (acc' (tech_id u))) techniques)
        by (symmetry; exact Hstep) end.
    rewrite IH by exact Hnd. apply map_ext. intros u. unfold acc'.
    rewrite <- app_assoc. unfold link_entries. cbn [flat_map]. rewrite app_nil_r. reflexivity.
Qed.

(** When the techniques have distinct STIX ids, linking gives every
    technique, in place, one detection-strategy entry for each detects
    relationship that targets its id and whose source strategy is known,
    in relationship order, appended to the strategies it already had; a
    technique that no such relationship targets is left unchanged. *)
Theorem link_appends_entries (techniques : list mitre_technique)
        (detectionStrategies : js_map stix_detection_strategy)
        (analyticsMap : js_map stix_analytic) (rels : list stix_relationship) :
  NoDup (map tech_id techniques) ->
  linkDetectionStrategiesToTechniques techniques detectionStrategies analyticsMap rels
  = map (fun t => with_strategies t
                    (link_entries detectionStrategies analyticsMap rels (tech_id t)))
        techniques.
Proof.
  intros Hnd. unfold linkDetectionStrategiesToTechniques. cbv zeta.
  assert (Hid : map (fun u => with_strategies u ((fun _ => []) (tech_id u))) techniques = techniques)
    by (clear; induction techniques as [|t ts IH]; simpl; [reflexivity|]; f_equal; apply map_id).
  pose proof (link_fold detectionStrategies analyticsMap techniques rels (fun _ => []) Hnd) as L.
  cbv beta in L. rewrite Hid in L. exact L.
Qed.

Lemma link_appends_entries_witness :
  let techniques :=
    [mkTechnique "attack-pattern--p" "Command and Scripting Interpreter" "T1059" "" ""
       ["execution"] false None None None;
     mkTechnique "attack-pattern--q" "Scheduled Task/Job" "T1053" "" ""
       ["execution"] false None None None] in
  let strategies :=
    [("x-mitre-detection-strategy--d",
      mkDetectionStrategy "x-mitre-detection-strategy--d" "Detect scripting"
        [mkExtRef "mitre-attack" (Some "DET0001") None] None None)] in
  let rels :=
    [mkRelationship "relationship--1" "detects" "x-mitre-detection-strategy--d"
       "attack-pattern--p" None] in
  NoDup (map tech_id techniques) /\
  linkDetectionStrategiesToTechniques techniques strategies [] rels
  = map (fun t => with_strategies t (link_entries strategies [] rels (tech_id t))) techniques.
Proof.
  intros techniques strategies rels.
  assert (Hn : NoDup (map tech_id techniques))
    by (simpl; constructor; [intros [H|[]]; discriminate H|constructor; [intros []|constructor]]).
  split; [exact Hn|].
  exact (link_appends_entries techniques strategies [] rels Hn).
Defined.
End LinkFacts.

Module CacheFacts.
Import Runner Parser Matrix.
Local Open Scope list_scope.

Lemma getMatrix_calls_cached build m : forall fs,
  getMatrix_calls build (Some m) fs = repeat (Ok m) (length fs).
Proof.
  induction fs as [|f fs IH]; simpl; [reflexivity|]. rewrite IH. reflexivity.
Qed.

(** A call of [getMatrix] on an empty cache (as after [clearCache])
    returns what [parseMatrix] returns.  Once a call returns a matrix, that
    matrix is cached and every later call returns it, whatever the state of
    the data file by then; a call whose parse throws leaves the cache
    empty. *)
Theorem getMatrix_caching (build : list json -> res mitre_matrix_data)
        (cachedMatrix : option mitre_matrix_data) (f : stix_file)
        (r : res mitre_matrix_data) (c : option mitre_matrix_data) :
  getMatrix build cachedMatrix f = (r, c) ->
  (cachedMatrix = None -> r = parseMatrix build f) /\
  (forall m, r = Ok m ->
     c = Some m /\ forall fs, getMatrix_calls build c fs = repeat (Ok m) (length fs)) /\
  (r = Thrown -> c = None).
Proof.
  unfold getMatrix. intros H.
  destruct cachedMatrix as [m0|].
  - injection H as <- <-. split; [discriminate|]. split; [|discriminate].
    intros m Hm. injection Hm as ->. split; [reflexivity|]. apply getMatrix_calls_cached.
  - destruct (parseMatrix build f) as [m0|] eqn:E; injection H as <- <-.
    + split; [reflexivity|]. split; [|discriminate].
      intros m Hm. injection Hm as ->. split; [reflexivity|]. apply getMatrix_calls_cached.
    + split; [reflexivity|]. split; [discriminate|reflexivity].
Qed.

Lemma getMatrix_caching_witness :
  getMatrix (fun _ => Thrown) (clearCache (Some empty_matrix)) FileMissing
    = (Ok empty_matrix, Some empty_matrix) /\
  (clearCache (Some empty_matrix) = None -> Ok empty_matrix = parseMatrix (fun _ => Thrown) FileMissing) /\
  (forall m, Ok empty_matrix = Ok m ->
     Some empty_matrix = Some m /\
     forall fs, getMatrix_calls (fun _ => Thrown) (Some empty_matrix) fs = repeat (Ok m) (length fs)) /\
  (Ok empty_matrix = (Thrown : res mitre_matrix_data) -> Some empty_matrix = None).
Proof.
  split; [reflexivity|].
  apply (getMatrix_caching (fun _ => Thrown) (clearCache (Some empty_matrix)) FileMissing).
  reflexivity.
Defined.

End CacheFacts.

Module RecalcFacts.
Import Runner Views.
Local Open Scope list_scope.

(** [analyticNeedsRecalculation] flags an analytic exactly when one of its
    references has an elapsed [next_execution] (the condition of the
    due-analytics query of the smart pass) or has no [next_execution] at
    all; an analytic without references is never flagged. *)
Theorem needs_recalculation_iff (now : Z) (analytic : result_doc) :
  analyticNeedsRecalculation now analytic
  = is_due now analytic
    || existsb (fun t => match t with None => true | Some _ => false end)
               (r_next_executions analytic).
Proof.
  unfold analyticNeedsRecalculation, is_due.
  induction (r_next_executions analytic) as [|[t|] rest IH]; simpl; [reflexivity| |].
  - destruct (Z.leb t now); simpl; [reflexivity|exact IH].
  - rewrite orb_true_r. reflexivity.
Qed.

End RecalcFacts.
